(** * The Muskingum-Cunge wave-routing demonstration notebook

    A shallow embedding of [notebooks/mc-wave-routing-demo.ipynb]: the
    notebook's global namespace, its code cells, and the two time-stepping
    loops that drive the external single-segment routing routine
    [singlesegment].  The routine itself (a Fortran solver behind a Python
    wrapper) is not part of the notebook; it enters the development as the
    value bound to the name [singlesegment], an arbitrary callable that
    either returns a triple or raises.  The two path set-up cells of
    section 2 are embedded on a small record of their own. *)

From Stdlib Require Import String ZArith List Bool Lia.
From Stdlib Require Import Floats.PrimFloat Floats.SpecFloat Floats.FloatOps.
Import ListNotations.

#[local] Set Warnings "-inexact-float".
#[local] Open Scope string_scope.
#[local] Open Scope list_scope.
#[local] Open Scope Z_scope.

(** ** Python values *)

(** The notebook manipulates two kinds of numbers: [int] literals such as
    [600], [0] and [1], and [float] literals such as [0.21] (binary64). *)
Inductive pyval : Type :=
| PyInt (z : Z)
| PyFloat (f : float).

(** The exceptions that can travel through the notebook's cells. *)
Inductive exn : Type :=
| NameError (name : string)
| ImportError (modname : string)
| TypeError (msg : string)
| OverflowError (msg : string)
| Raised (what : string).

(** [float(n)] for a Python [int]: round to nearest even, and
    [OverflowError] when the rounded value leaves the binary64 range. *)
Definition float_of_Z (z : Z) : float :=
  SF2Prim (binary_normalize prec emax z 0 false).

Definition py_float_of_int (z : Z) : exn + float :=
  let f := float_of_Z z in
  if PrimFloat.is_infinity f
  then inl (OverflowError "int too large to convert to float")
  else inr f.

(** The [*] operator on numbers. *)
Definition py_mul (a b : pyval) : exn + pyval :=
  match a, b with
  | PyInt x, PyInt y => inr (PyInt (x * y))
  | PyInt x, PyFloat g =>
      match py_float_of_int x with
      | inl e => inl e
      | inr f => inr (PyFloat (PrimFloat.mul f g))
      end
  | PyFloat f, PyInt y =>
      match py_float_of_int y with
      | inl e => inl e
      | inr g => inr (PyFloat (PrimFloat.mul f g))
      end
  | PyFloat f, PyFloat g => inr (PyFloat (PrimFloat.mul f g))
  end.

(** The integers [0 .. z-1], none when [z <= 0]. *)
Definition upto (z : Z) : list Z := map Z.of_nat (seq 0 (Z.to_nat z)).

(** [range(0, n)]; a [float] bound is a [TypeError]. *)
Definition py_range (n : pyval) : exn + list Z :=
  match n with
  | PyInt z => inr (upto z)
  | PyFloat _ =>
      inl (TypeError "'float' object cannot be interpreted as an integer")
  end.

(** ** The routing routine's calling contract *)

(** The fifteen keyword arguments of [singlesegment(...)]. *)
Record Args : Type := mkArgs {
  arg_dt : pyval;
  arg_qup : pyval;
  arg_quc : pyval;
  arg_qdp : pyval;
  arg_qlat : pyval;
  arg_dx : pyval;
  arg_bw : pyval;
  arg_tw : pyval;
  arg_twcc : pyval;
  arg_n_manning : pyval;
  arg_n_manning_cc : pyval;
  arg_cs : pyval;
  arg_s0 : pyval;
  arg_velp : pyval;
  arg_depthp : pyval
}.

(** The returned tuple [(qdc, velc, depthc)]. *)
Definition Triple : Type := (pyval * pyval * pyval)%type.

(** A callable bound to [singlesegment]: it returns a triple or raises. *)
Definition solver : Type := Args -> exn + Triple.

(** One recorded invocation of the routine: what it was given and what came
    back. *)
Record Call : Type := mkCall {
  args : Args;
  result : exn + Triple
}.

(** The previous-state part of an argument list, in the order of the
    returned tuple: flow, velocity, depth. *)
Definition prev_state (a : Args) : Triple :=
  (arg_qdp a, arg_velp a, arg_depthp a).

(** ** The notebook's global namespace *)

(** Names bound to numbers. *)
Inductive var : Type :=
| dt | tsteps | dx
| bw | tw | twcc | cs | n_manning | n_manning_cc | s0
| qlat | qup | quc | qdp | depthp | velp
| k | qdc | velc | depthc.

(** Names bound to lists. *)
Inductive lvar : Type :=
| q_result | t_result | qus.

Scheme Equality for var.
Scheme Equality for lvar.

Record Ns : Type := mkNs {
  num : var -> pyval;
  lst : lvar -> list pyval;
  singlesegment : option solver;
  muskingcunge_module : bool;
  stdout : list string
}.

Definition upd (x : var) (v : pyval) (ns : Ns) : Ns :=
  {| num := fun y => if var_beq x y then v else num ns y;
     lst := lst ns;
     singlesegment := singlesegment ns;
     muskingcunge_module := muskingcunge_module ns;
     stdout := stdout ns |}.

Definition updl (x : lvar) (l : list pyval) (ns : Ns) : Ns :=
  {| num := num ns;
     lst := fun y => if lvar_beq x y then l else lst ns y;
     singlesegment := singlesegment ns;
     muskingcunge_module := muskingcunge_module ns;
     stdout := stdout ns |}.

(** ** Running cells: state, call trace and exceptions *)

(** A piece of notebook code transforms the namespace, may invoke the
    routing routine (each invocation is appended to [calls]), and ends
    either normally with a value or with an exception.  On an exception
    the namespace keeps whatever had been assigned up to that point. *)
Record Run (A : Type) : Type := mkRun {
  final : Ns;
  calls : list Call;
  value : exn + A
}.
Arguments mkRun {A} _ _ _.
Arguments final {A} _.
Arguments calls {A} _.
Arguments value {A} _.

Definition M (A : Type) : Type := Ns -> Run A.

Definition ret {A} (a : A) : M A := fun ns => mkRun ns [] (inr a).

Definition raise {A} (e : exn) : M A := fun ns => mkRun ns [] (inl e).

Definition bind {A B} (m : M A) (f : A -> M B) : M B :=
  fun ns =>
    match m ns with
    | mkRun ns1 c1 (inl e) => mkRun ns1 c1 (inl e)
    | mkRun ns1 c1 (inr a) =>
        match f a ns1 with
        | mkRun ns2 c2 v => mkRun ns2 (c1 ++ c2) v
        end
    end.

Declare Scope py_scope.
Delimit Scope py_scope with py.
Notation "x <- m ;; f" := (bind m (fun x => f))
  (at level 61, m at next level, right associativity) : py_scope.
Notation "' pat <- m ;; f" := (bind m (fun x => match x with pat => f end))
  (at level 61, pat pattern, m at next level, right associativity) : py_scope.
Notation "m ;; f" := (bind m (fun _ => f))
  (at level 61, right associativity) : py_scope.
#[local] Open Scope py_scope.

Definition lift {A} (r : exn + A) : M A :=
  fun ns => mkRun ns [] r.

Definition get (x : var) : M pyval := fun ns => mkRun ns [] (inr (num ns x)).

Definition set (x : var) (v : pyval) : M unit :=
  fun ns => mkRun (upd x v ns) [] (inr tt).

(** [x = []] *)
Definition new_list (x : lvar) : M unit :=
  fun ns => mkRun (updl x [] ns) [] (inr tt).

(** [x.append(v)] *)
Definition append (x : lvar) (v : pyval) : M unit :=
  fun ns => mkRun (updl x (lst ns x ++ [v]) ns) [] (inr tt).

Definition print (s : string) : M unit :=
  fun ns =>
    mkRun {| num := num ns; lst := lst ns;
             singlesegment := singlesegment ns;
             muskingcunge_module := muskingcunge_module ns;
             stdout := stdout ns ++ [s] |} [] (inr tt).

(** The keyword arguments of the call, read from the namespace. *)
Definition current_args (ns : Ns) : Args :=
  {| arg_dt := num ns dt;
     arg_qup := num ns qup;
     arg_quc := num ns quc;
     arg_qdp := num ns qdp;
     arg_qlat := num ns qlat;
     arg_dx := num ns dx;
     arg_bw := num ns bw;
     arg_tw := num ns tw;
     arg_twcc := num ns twcc;
     arg_n_manning := num ns n_manning;
     arg_n_manning_cc := num ns n_manning_cc;
     arg_cs := num ns cs;
     arg_s0 := num ns s0;
     arg_velp := num ns velp;
     arg_depthp := num ns depthp |}.

(** [singlesegment(dt=dt, qup=qup, ..., depthp=depthp)]: the name is looked
    up first ([NameError] when unbound); the call is recorded; whatever the
    callable raises propagates. *)
Definition call_singlesegment : M Triple :=
  fun ns =>
    match singlesegment ns with
    | None => mkRun ns [] (inl (NameError "singlesegment"))
    | Some f =>
        let a := current_args ns in
        mkRun ns [mkCall a (f a)] (f a)
    end.

(** [for k in <l>: body] *)
Fixpoint foreach (l : list Z) (body : Z -> M unit) : M unit :=
  match l with
  | [] => ret tt
  | i :: l' => set k (PyInt i) ;; body i ;; foreach l' body
  end.

(** [for k in range(0, tsteps): body] *)
Definition for_k_in_range (body : Z -> M unit) : M unit :=
  n <- get tsteps ;;
  l <- lift (py_range n) ;;
  foreach l body.

(** ** The notebook's cells *)

(** What the host offers when the notebook asks for its two modules. *)
Record Host : Type := mkHost {
  (** [from mc_sseg_stime import muskingcunge_module], first attempt *)
  import_prebuilt : exn + unit;
  (** the [f2py3] subprocess followed by the second import attempt *)
  compile_then_import : exn + unit;
  (** [from mc_sseg_stime_NOLOOP_demo import singlesegment] *)
  import_singlesegment : exn + solver
}.

Definition exn_text (e : exn) : string :=
  match e with
  | NameError s => s
  | ImportError s => s
  | TypeError s => s
  | OverflowError s => s
  | Raised s => s
  end.

Definition bind_muskingcunge_module : M unit :=
  fun ns =>
    mkRun {| num := num ns; lst := lst ns;
             singlesegment := singlesegment ns;
             muskingcunge_module := true;
             stdout := stdout ns |} [] (inr tt).

Definition bind_singlesegment (f : solver) : M unit :=
  fun ns =>
    mkRun {| num := num ns; lst := lst ns;
             singlesegment := Some f;
             muskingcunge_module := muskingcunge_module ns;
             stdout := stdout ns |} [] (inr tt).

(** Section 3 cell: import the extension module, else compile it and import
    again, else print the exception and the traceback.  Both handlers
    catch, so the cell itself never raises. *)
Definition import_or_compile (h : Host) : M unit :=
  print "importing fortran module..." ;;
  match import_prebuilt h with
  | inr _ =>
      bind_muskingcunge_module ;;
      print "... success!"
  | inl _ =>
      print "we will attempt to compile the muskingcunge_module in the background... wish us luck!" ;;
      match compile_then_import h with
      | inr _ =>
          bind_muskingcunge_module ;;
          print "...success!"
      | inl e =>
          print ("Exception: " ++ exn_text e)%string ;;
          print "Traceback (most recent call last):"
      end
  end.

(** Section 4 cell: [from mc_sseg_stime_NOLOOP_demo import singlesegment],
    outside any [try]. *)
Definition import_demo (h : Host) : M unit :=
  match import_singlesegment h with
  | inl e => raise e
  | inr f => bind_singlesegment f
  end.

(** Section 5 cell. *)
Definition model_domain : M unit :=
  set dt (PyInt 600) ;;
  set tsteps (PyInt 60) ;;
  set dx (PyFloat 2000.0).

(** Section 6 cell. *)
Definition channel_parameters : M unit :=
  set bw (PyFloat 112.0) ;;
  set tw (PyFloat 448.0) ;;
  set twcc (PyFloat 623.0) ;;
  set cs (PyFloat 1.40) ;;
  set n_manning (PyFloat 0.028) ;;
  set n_manning_cc (PyFloat 0.031) ;;
  set s0 (PyFloat 0.0018).

(** Body of the loop of experiment 1, for loop index [i] (already stored in
    [k]). *)
Definition body1 (i : Z) : M unit :=
  '(q, v, d) <- call_singlesegment ;;
  set qdc q ;; set velc v ;; set depthc d ;;
  x <- get qdc ;; append q_result x ;;
  kk <- get k ;; d <- get dt ;; p <- lift (py_mul kk d) ;; append t_result p ;;
  x <- get qdc ;; set qdp x ;;
  x <- get depthc ;; set depthp x ;;
  x <- get velc ;; set velp x.

(** Experiment 1 (state change), up to the end of the loop. *)
Definition experiment1 : M unit :=
  set qlat (PyInt 0) ;;
  set qup (PyFloat 0.41) ;;
  set quc (PyFloat 0.41) ;;
  set qdp (PyFloat 0.21) ;;
  set depthp (PyFloat 0.010) ;;
  set velp (PyFloat 0.070) ;;
  new_list q_result ;;
  new_list t_result ;;
  for_k_in_range body1.

(** The pulse boundary condition of experiment 2: an [if] followed by a
    separate [if]/[else]. *)
Definition pulse (i : Z) : M unit :=
  (if i <=? 5
   then set qup (PyFloat 0.21) ;; set quc (PyFloat 0.21)
   else ret tt) ;;
  (if (5 <? i) && (i <? 10)
   then set qup (PyInt 1) ;; set quc (PyInt 1)
   else set qup (PyFloat 0.21) ;; set quc (PyFloat 0.21)).

Definition body2 (i : Z) : M unit :=
  pulse i ;;
  '(q, v, d) <- call_singlesegment ;;
  set qdc q ;; set velc v ;; set depthc d ;;
  x <- get qdc ;; append q_result x ;;
  kk <- get k ;; d <- get dt ;; p <- lift (py_mul kk d) ;; append t_result p ;;
  x <- get quc ;; append qus x ;;
  x <- get qdc ;; set qdp x ;;
  x <- get depthc ;; set depthp x ;;
  x <- get velc ;; set velp x.

(** Experiment 2 (pulse), up to the end of the loop. *)
Definition experiment2 : M unit :=
  set qlat (PyInt 0) ;;
  set qup (PyFloat 0.21) ;;
  set quc (PyFloat 0.21) ;;
  set qdp (PyFloat 0.21) ;;
  set depthp (PyFloat 0.010) ;;
  set velp (PyFloat 0.070) ;;
  new_list qus ;;
  new_list q_result ;;
  new_list t_result ;;
  for_k_in_range body2.

(** Running the code cells top to bottom; the first uncaught exception
    stops the run. *)
Definition run_all (h : Host) : M unit :=
  import_or_compile h ;;
  import_demo h ;;
  model_domain ;;
  channel_parameters ;;
  experiment1 ;;
  experiment2.

(** The second statement of the pulse on its own: the [if 5 < k < 10] with
    its [else]. *)
Definition pulse_if_else (i : Z) : M unit :=
  if (5 <? i) && (i <? 10)
  then set qup (PyInt 1) ;; set quc (PyInt 1)
  else set qup (PyFloat 0.21) ;; set quc (PyFloat 0.21).

(** ** The path set-up cells *)

(** What the host offers to the two cells of section 2: the import of
    [google.colab], the [git clone] subprocess (its return code, or the
    exception raised when it cannot be started), the parent of the working
    directory ([os.path.dirname] of the absolute path of the empty path),
    and the platform's [os.path.join]. *)
Record PathHost : Type := mkPathHost {
  import_colab : exn + unit;
  git_clone : exn + Z;
  parent_of_cwd : exn + string;
  os_path_join : string -> list string -> string
}.

(** The names these cells bind, and [sys.path]. *)
Record Paths : Type := mkPaths {
  ENV_IS_CL : option bool;
  root : option string;
  fortran_source_dir : option string;
  sys_path : list string
}.

(** [l.insert(i, x)] for an index [i >= 0]: before position [i], or at the
    end when the list is shorter. *)
Definition py_insert {A} (i : nat) (x : A) (l : list A) : list A :=
  firstn i l ++ x :: skipn i l.

(** The handler of the first cell: [root = os.path.dirname(...)]. *)
Definition local_root (h : PathHost) (p : Paths) : Paths * option exn :=
  match parent_of_cwd h with
  | inl e => (p, Some e)
  | inr d =>
      ({| ENV_IS_CL := ENV_IS_CL p; root := Some d;
          fortran_source_dir := fortran_source_dir p;
          sys_path := sys_path p |}, None)
  end.

(** First cell: inside [try], import [google.colab], set [ENV_IS_CL] and
    [root], clone the repository; a bare [except] falls back to the parent
    of the working directory. *)
Definition locate_root (h : PathHost) (p : Paths) : Paths * option exn :=
  match import_colab h with
  | inl _ => local_root h p
  | inr _ =>
      let p1 := {| ENV_IS_CL := Some true; root := Some "/content/t-route";
                   fortran_source_dir := fortran_source_dir p;
                   sys_path := sys_path p |} in
      match git_clone h with
      | inl _ => local_root h p1
      | inr _ => (p1, None)
      end
  end.

Definition source_components : list string :=
  ["src"; "fortran_routing"; "mc_pylink_v00"; "MC_singleSeg_singleTS"].

(** Second cell: join the source directory under [root] and insert it in
    [sys.path] at index 1. *)
Definition add_source_dir (h : PathHost) (p : Paths) : Paths * option exn :=
  match root p with
  | None => (p, Some (NameError "root"))
  | Some r =>
      let d := os_path_join h r source_components in
      ({| ENV_IS_CL := ENV_IS_CL p; root := root p;
          fortran_source_dir := Some d;
          sys_path := py_insert 1 d (sys_path p) |}, None)
  end.

(** Both cells in order; the second runs only if the first ended
    normally. *)
Definition path_setup (h : PathHost) (p : Paths) : Paths * option exn :=
  match locate_root h p with
  | (p1, Some e) => (p1, Some e)
  | (p1, None) => add_source_dir h p1
  end.

(** ** Concrete inputs used in examples *)

Definition to_float (v : pyval) : float :=
  match v with
  | PyInt z => float_of_Z z
  | PyFloat f => f
  end.

(** A stand-in routine: the new flow is the mean of the previous downstream
    flow and the current upstream flow; velocity and depth are kept. *)
Definition mean_solver : solver :=
  fun a =>
    inr (PyFloat (PrimFloat.div
                    (PrimFloat.add (to_float (arg_qdp a)) (to_float (arg_quc a)))
                    2%float),
         arg_velp a, arg_depthp a).

(** A fresh kernel: nothing useful bound yet. *)
Definition empty_ns : Ns :=
  {| num := fun _ => PyInt 0;
     lst := fun _ => [];
     singlesegment := None;
     muskingcunge_module := false;
     stdout := [] |}.

(** The namespace after the set-up cells, with the stand-in routine. *)
Definition demo_ns : Ns :=
  final ((bind_singlesegment mean_solver ;; model_domain ;; channel_parameters)
           empty_ns).

Definition short_ns (n : Z) : Ns := upd tsteps (PyInt n) demo_ns.


(** ** Sequencing, in terms of the parts of a run *)

Lemma bind_run {A B} (m : M A) (f : A -> M B) (ns : Ns) :
  bind m f ns =
  match value (m ns) with
  | inl e => mkRun (final (m ns)) (calls (m ns)) (inl e)
  | inr a =>
      mkRun (final (f a (final (m ns))))
            (calls (m ns) ++ calls (f a (final (m ns))))
            (value (f a (final (m ns))))
  end.
Proof.
  unfold bind. destruct (m ns) as [ns1 c1 [e|a]]; cbn; [reflexivity|].
  destruct (f a ns1); reflexivity.
Qed.

(** ** Vocabulary for statements about runs *)

(** A trace is threaded from state [s] when its first call receives [s] as
    previous state, and every later call receives the triple returned by
    the call before it; a call that raised has no successor. *)
Fixpoint threaded (s : Triple) (tr : list Call) : Prop :=
  match tr with
  | [] => True
  | c :: tr' =>
      prev_state (args c) = s /\
      match result c with
      | inr t => threaded t tr'
      | inl _ => tr' = []
      end
  end.

(** The downstream flows returned by the calls of a trace. *)
Definition flows (tr : list Call) : list pyval :=
  flat_map (fun c => match result c with
                     | inr (q, _, _) => [q]
                     | inl _ => []
                     end) tr.

(** The geometry, roughness, slope and time-step names, and the arguments
    that carry them into a call. *)
Definition geometry_names : list var :=
  [bw; tw; twcc; cs; n_manning; n_manning_cc; s0; dx; dt].

Definition geometry_args (a : Args) : list pyval :=
  [arg_bw a; arg_tw a; arg_twcc a; arg_cs a; arg_n_manning a;
   arg_n_manning_cc a; arg_s0 a; arg_dx a; arg_dt a].

(** Names that every iteration assigns before reading them. *)
Definition is_scratch (x : var) : bool :=
  match x with
  | k | qdc | velc | depthc => true
  | _ => false
  end.

(** Two namespaces agree when they bind the same routine, the same numbers
    to every name that is not loop-local, and the same result lists. *)
Definition agree (ns1 ns2 : Ns) : Prop :=
  (forall x, is_scratch x = false -> num ns1 x = num ns2 x) /\
  lst ns1 q_result = lst ns2 q_result /\
  lst ns1 t_result = lst ns2 t_result /\
  singlesegment ns1 = singlesegment ns2.

(** Two facts about the same lookup, call or product either contradict
    each other or identify their results. *)
Ltac collide :=
  match goal with
  | H : ?a = None, H' : ?a = Some _ |- _ => rewrite H in H'; discriminate H'
  | H : ?a = inl _, H' : ?a = inr _ |- _ => rewrite H in H'; discriminate H'
  | H : ?a = inr _, H' : ?a = inl _ |- _ => rewrite H in H'; discriminate H'
  end.

Ltac coincide :=
  match goal with
  | H : ?a = Some ?x, H' : ?a = Some ?y |- _ =>
      rewrite H in H'; injection H' as H'; first [subst y | subst x]
  | H : ?a = inl ?x, H' : ?a = inl ?y |- _ =>
      rewrite H in H'; injection H' as H'; first [subst y | subst x]
  | H : ?a = inr ?x, H' : ?a = inr ?y |- _ =>
      rewrite H in H'; injection H' as H'; first [subst y | subst x]
  end.

Lemma current_args_ext ns ns' :
  (forall x, is_scratch x = false -> num ns x = num ns' x) ->
  current_args ns = current_args ns'.
Proof.
  intros H. unfold current_args. rewrite !H by reflexivity. reflexivity.
Qed.

(** ** One iteration, generically *)

(** Both loop bodies have the same shape: optional boundary-condition
    assignments [pre], the call, recording of the result, optional extra
    bookkeeping [mid], and the state update.  The section states that shape
    once and derives what follows from it for any loop of that shape. *)

Definition state_of (ns : Ns) : Triple :=
  (num ns qdp, num ns velp, num ns depthp).

(** Names the loop only reads. *)
Definition is_config (x : var) : bool :=
  match x with
  | dt | tsteps | dx | bw | tw | twcc | cs | n_manning | n_manning_cc | s0
  | qlat => true
  | _ => false
  end.

Definition recorded (t : Triple) (ns : Ns) : Ns :=
  let '(q, v, d) := t in
  updl q_result (lst ns q_result ++ [q]) (upd depthc d (upd velc v (upd qdc q ns))).

Section Stepping.
Variable pre : Z -> Ns -> Ns.
Variable mid : Ns -> Ns.
Variable body : Z -> M unit.

(** The namespace at the moment of the call in iteration [i]. *)
Definition entered (i : Z) (ns : Ns) : Ns := pre i (upd k (PyInt i) ns).

Definition advanced (p : pyval) (t : Triple) (ns : Ns) : Ns :=
  let '(q, v, d) := t in
  upd velp v (upd depthp d (upd qdp q
    (mid (updl t_result (lst ns t_result ++ [p]) ns)))).

Inductive iteration (i : Z) (ns : Ns) : Run unit -> Prop :=
| it_unbound :
    singlesegment (entered i ns) = None ->
    iteration i ns
      (mkRun (entered i ns) [] (inl (NameError "singlesegment")))
| it_raised f e :
    singlesegment (entered i ns) = Some f ->
    f (current_args (entered i ns)) = inl e ->
    iteration i ns
      (mkRun (entered i ns)
             [mkCall (current_args (entered i ns)) (inl e)] (inl e))
| it_stamp f t e :
    singlesegment (entered i ns) = Some f ->
    f (current_args (entered i ns)) = inr t ->
    py_mul (num (entered i ns) k) (num (entered i ns) dt) = inl e ->
    iteration i ns
      (mkRun (recorded t (entered i ns))
             [mkCall (current_args (entered i ns)) (inr t)] (inl e))
| it_done f t p :
    singlesegment (entered i ns) = Some f ->
    f (current_args (entered i ns)) = inr t ->
    py_mul (num (entered i ns) k) (num (entered i ns) dt) = inr p ->
    iteration i ns
      (mkRun (advanced p t (recorded t (entered i ns)))
             [mkCall (current_args (entered i ns)) (inr t)] (inr tt)).

Hypothesis body_iteration :
  forall i ns, iteration i ns (body i (upd k (PyInt i) ns)).
Hypothesis pre_num :
  forall i ns x, x <> qup -> x <> quc -> num (pre i ns) x = num ns x.
Hypothesis pre_lst : forall i ns y, lst (pre i ns) y = lst ns y.
Hypothesis pre_fun : forall i ns, singlesegment (pre i ns) = singlesegment ns.
Hypothesis mid_num : forall ns x, num (mid ns) x = num ns x.
Hypothesis mid_lst : forall ns y, y <> qus -> lst (mid ns) y = lst ns y.
Hypothesis mid_fun : forall ns, singlesegment (mid ns) = singlesegment ns.

(** *** Namespaces met during an iteration *)

Lemma entered_num i ns x :
  x <> qup -> x <> quc -> x <> k -> num (entered i ns) x = num ns x.
Proof.
  intros Hu Hc Hk. unfold entered. rewrite pre_num by assumption.
  destruct x; try reflexivity. exfalso. now apply Hk.
Qed.

Lemma entered_k i ns : num (entered i ns) k = PyInt i.
Proof. unfold entered. rewrite pre_num by discriminate. reflexivity. Qed.

Lemma entered_lst i ns y : lst (entered i ns) y = lst ns y.
Proof. unfold entered. rewrite pre_lst. reflexivity. Qed.

Lemma entered_fun i ns : singlesegment (entered i ns) = singlesegment ns.
Proof. unfold entered. rewrite pre_fun. reflexivity. Qed.

Lemma entered_state i ns : state_of (entered i ns) = state_of ns.
Proof.
  unfold state_of. rewrite !entered_num by discriminate. reflexivity.
Qed.

Lemma entered_config i ns x :
  is_config x = true -> num (entered i ns) x = num ns x.
Proof.
  intros Hx. apply entered_num; intros ->; discriminate.
Qed.

Lemma recorded_config t ns x :
  is_config x = true -> num (recorded t ns) x = num ns x.
Proof.
  destruct t as [[q v] d]. destruct x; try discriminate; reflexivity.
Qed.

Lemma recorded_fun t ns : singlesegment (recorded t ns) = singlesegment ns.
Proof. destruct t as [[q v] d]. reflexivity. Qed.

Lemma recorded_flow t ns :
  lst (recorded t ns) q_result = lst ns q_result ++ [fst (fst t)].
Proof. destruct t as [[q v] d]. reflexivity. Qed.

Lemma recorded_stamps t ns : lst (recorded t ns) t_result = lst ns t_result.
Proof. destruct t as [[q v] d]. reflexivity. Qed.

Lemma advanced_state p t ns : state_of (advanced p t ns) = t.
Proof. destruct t as [[q v] d]. reflexivity. Qed.

Lemma advanced_num p t ns x :
  x <> qdp -> x <> depthp -> x <> velp -> num (advanced p t ns) x = num ns x.
Proof.
  intros H1 H2 H3. destruct t as [[q v] d]. unfold advanced.
  destruct x;
    try solve [exfalso; first [now apply H1 | now apply H2 | now apply H3]];
    cbn; rewrite mid_num; reflexivity.
Qed.

Lemma advanced_config p t ns x :
  is_config x = true -> num (advanced p t ns) x = num ns x.
Proof.
  intros Hx. apply advanced_num; intros ->; discriminate.
Qed.

Lemma advanced_fun p t ns : singlesegment (advanced p t ns) = singlesegment ns.
Proof. destruct t as [[q v] d]. cbn. rewrite mid_fun. reflexivity. Qed.

Lemma advanced_flow p t ns : lst (advanced p t ns) q_result = lst ns q_result.
Proof.
  destruct t as [[q v] d]. cbn. rewrite mid_lst by discriminate. reflexivity.
Qed.

Lemma advanced_stamps p t ns :
  lst (advanced p t ns) t_result = lst ns t_result ++ [p].
Proof.
  destruct t as [[q v] d]. cbn. rewrite mid_lst by discriminate. reflexivity.
Qed.

(** The namespace after a complete iteration. *)
Definition next (i : Z) (p : pyval) (t : Triple) (ns : Ns) : Ns :=
  advanced p t (recorded t (entered i ns)).

Lemma next_config i p t ns x :
  is_config x = true -> num (next i p t ns) x = num ns x.
Proof.
  intros Hx. unfold next.
  rewrite advanced_config, recorded_config, entered_config by assumption.
  reflexivity.
Qed.

Lemma next_fun i p t ns : singlesegment (next i p t ns) = singlesegment ns.
Proof.
  unfold next. rewrite advanced_fun, recorded_fun, entered_fun. reflexivity.
Qed.

Lemma next_flow i p t ns :
  lst (next i p t ns) q_result = lst ns q_result ++ [fst (fst t)].
Proof.
  unfold next. rewrite advanced_flow, recorded_flow, entered_lst. reflexivity.
Qed.

Lemma next_stamps i p t ns :
  lst (next i p t ns) t_result = lst ns t_result ++ [p].
Proof.
  unfold next. rewrite advanced_stamps, recorded_stamps, entered_lst.
  reflexivity.
Qed.

(** *** Unrolling the loop by one iteration *)

Inductive unrolled (i : Z) (l : list Z) (ns : Ns) : Run unit -> Prop :=
| un_unbound :
    singlesegment ns = None ->
    unrolled i l ns
      (mkRun (entered i ns) [] (inl (NameError "singlesegment")))
| un_raised f e :
    singlesegment ns = Some f ->
    f (current_args (entered i ns)) = inl e ->
    unrolled i l ns
      (mkRun (entered i ns)
             [mkCall (current_args (entered i ns)) (inl e)] (inl e))
| un_stamp f t e :
    singlesegment ns = Some f ->
    f (current_args (entered i ns)) = inr t ->
    py_mul (PyInt i) (num ns dt) = inl e ->
    unrolled i l ns
      (mkRun (recorded t (entered i ns))
             [mkCall (current_args (entered i ns)) (inr t)] (inl e))
| un_done f t p :
    singlesegment ns = Some f ->
    f (current_args (entered i ns)) = inr t ->
    py_mul (PyInt i) (num ns dt) = inr p ->
    unrolled i l ns
      (mkRun (final (foreach l body (next i p t ns)))
             (mkCall (current_args (entered i ns)) (inr t)
                :: calls (foreach l body (next i p t ns)))
             (value (foreach l body (next i p t ns)))).

Lemma foreach_cons i l ns :
  foreach (i :: l) body ns =
  let r := body i (upd k (PyInt i) ns) in
  match value r with
  | inl e => mkRun (final r) (calls r) (inl e)
  | inr _ =>
      let r' := foreach l body (final r) in
      mkRun (final r') (calls r ++ calls r') (value r')
  end.
Proof.
  cbn [foreach]. rewrite bind_run. cbn [set value final calls app].
  rewrite bind_run. cbv zeta.
  destruct (value (body i (upd k (PyInt i) ns))); reflexivity.
Qed.

Lemma foreach_unrolled i l ns : unrolled i l ns (foreach (i :: l) body ns).
Proof.
  rewrite foreach_cons.
  pose proof (entered_fun i ns) as Hfun.
  pose proof (entered_k i ns) as Hk.
  pose proof (entered_config i ns dt eq_refl) as Hdt.
  destruct (body_iteration i ns) as [Hf | f e Hf Hc | f t e Hf Hc Hp | f t p Hf Hc Hp];
    cbn [value final calls app];
    rewrite Hfun in Hf; try rewrite Hk, Hdt in Hp.
  - now apply un_unbound.
  - now apply un_raised with (f := f).
  - now apply un_stamp with (f := f).
  - now apply un_done with (f := f).
Qed.

Lemma next_state i p t ns : state_of (next i p t ns) = t.
Proof. unfold next. apply advanced_state. Qed.

(** *** Facts about any run of the loop *)

Lemma loop_config l :
  forall ns x, is_config x = true ->
    num (final (foreach l body ns)) x = num ns x.
Proof.
  induction l as [|i l IH]; intros ns x Hx; [reflexivity|].
  destruct (foreach_unrolled i l ns); cbn [final].
  - now apply entered_config.
  - now apply entered_config.
  - rewrite recorded_config, entered_config by assumption. reflexivity.
  - rewrite IH by assumption. now apply next_config.
Qed.

Lemma loop_fun l :
  forall ns, singlesegment (final (foreach l body ns)) = singlesegment ns.
Proof.
  induction l as [|i l IH]; intros ns; [reflexivity|].
  destruct (foreach_unrolled i l ns); cbn [final].
  - apply entered_fun.
  - apply entered_fun.
  - rewrite recorded_fun. apply entered_fun.
  - rewrite IH. apply next_fun.
Qed.

Lemma loop_threaded l :
  forall ns, threaded (state_of ns) (calls (foreach l body ns)).
Proof.
  induction l as [|i l IH]; intros ns; [exact I|].
  destruct (foreach_unrolled i l ns) as [Hf | f e Hf Hc | f t e Hf Hc Hp | f t p Hf Hc Hp];
    cbn [calls threaded args result].
  - exact I.
  - split; [apply entered_state | reflexivity].
  - split; [apply entered_state | exact I].
  - split; [apply entered_state |].
    rewrite <- (next_state i p t ns) at 1. apply IH.
Qed.

Lemma loop_flows l :
  forall ns,
    lst (final (foreach l body ns)) q_result
    = lst ns q_result ++ flows (calls (foreach l body ns)).
Proof.
  induction l as [|i l IH]; intros ns.
  - cbn. now rewrite app_nil_r.
  - destruct (foreach_unrolled i l ns) as [Hf | f e Hf Hc | f t e Hf Hc Hp | f t p Hf Hc Hp];
      cbn [final calls flows flat_map result app].
    + rewrite entered_lst. now rewrite app_nil_r.
    + rewrite entered_lst. now rewrite app_nil_r.
    + rewrite recorded_flow, entered_lst. now destruct t as [[q v] d].
    + rewrite IH, next_flow. destruct t as [[q v] d].
      cbn [fst app]. now rewrite <- app_assoc.
Qed.

(** A call that raised is the last one, and its exception is the run's. *)
Lemma loop_failed_call l :
  forall ns c e,
    In c (calls (foreach l body ns)) -> result c = inl e ->
    value (foreach l body ns) = inl e /\
    exists before, calls (foreach l body ns) = before ++ [c].
Proof.
  induction l as [|i l IH]; intros ns c e Hin Hres; [destruct Hin|].
  destruct (foreach_unrolled i l ns) as [Hf | f e' Hf Hc | f t e' Hf Hc Hp | f t p Hf Hc Hp];
    cbn [calls value] in *.
  - destruct Hin.
  - destruct Hin as [<-|[]]. cbn in Hres. split; [now injection Hres as -> |].
    now exists [].
  - destruct Hin as [<-|[]]. discriminate Hres.
  - destruct Hin as [<-|Hin]; [discriminate Hres|].
    destruct (IH _ _ _ Hin Hres) as [Hv [before Hb]].
    split; [exact Hv|]. rewrite Hb.
    now exists (mkCall (current_args (entered i ns)) (inr t) :: before).
Qed.


(** Each recorded call belongs to the loop index at its position and was
    made from a namespace satisfying any invariant of complete
    iterations. *)
Lemma loop_indexed (Inv : Ns -> Prop) (Q : Z -> Args -> Prop) :
  (forall i ns, Inv ns -> Q i (current_args (entered i ns))) ->
  (forall i p t ns, Inv ns -> Inv (next i p t ns)) ->
  forall l ns, Inv ns ->
  forall j c, nth_error (calls (foreach l body ns)) j = Some c ->
    exists i, nth_error l j = Some i /\ Q i (args c).
Proof.
  intros HQ Hnext.
  induction l as [|i l IH]; intros ns Hinv j c Hj.
  - destruct j; discriminate Hj.
  - destruct (foreach_unrolled i l ns) as [Hf | f e Hf Hc | f t e Hf Hc Hp | f t p Hf Hc Hp];
      cbn [calls] in Hj.
    + destruct j; discriminate Hj.
    + destruct j as [|[|j]]; try discriminate Hj.
      injection Hj as <-. exists i. split; [reflexivity|]. now apply HQ.
    + destruct j as [|[|j]]; try discriminate Hj.
      injection Hj as <-. exists i. split; [reflexivity|]. now apply HQ.
    + destruct j as [|j].
      * injection Hj as <-. exists i. split; [reflexivity|]. now apply HQ.
      * cbn [nth_error] in Hj |- *. eapply IH; [|exact Hj]. now apply Hnext.
Qed.

(** When the routine returns on every call and every time stamp can be
    computed, the loop runs to its end: one successful call and one time
    stamp per index. *)
Lemma loop_complete l :
  forall ns f,
    singlesegment ns = Some f ->
    (forall a, exists t, f a = inr t) ->
    Forall (fun i => exists v, py_mul (PyInt i) (num ns dt) = inr v) l ->
    let r := foreach l body ns in
    value r = inr tt /\
    length (calls r) = length l /\
    Forall (fun c => exists t, result c = inr t) (calls r) /\
    exists ts, lst (final r) t_result = lst ns t_result ++ ts /\
               Forall2 (fun i v => py_mul (PyInt i) (num ns dt) = inr v) l ts.
Proof.
  induction l as [|i l IH]; intros ns f Hf Htot Hst; cbn zeta.
  - cbn. repeat split; auto. exists []. split; [now rewrite app_nil_r | constructor].
  - inversion Hst as [|? ? [v Hv] Hst']; subst.
    destruct (Htot (current_args (entered i ns))) as [t0 Ht0].
    destruct (foreach_unrolled i l ns) as [Hf' | f' e Hf' Hc | f' t e Hf' Hc Hp | f' t p Hf' Hc Hp];
      try collide; coincide; try collide.
    assert (Hdt : num (next i p t ns) dt = num ns dt) by now apply next_config.
    destruct (IH (next i p t ns) f) as (Hval & Hlen & Hall & ts & Hts & Hf2).
    { now rewrite next_fun. }
    { exact Htot. }
    { now rewrite Hdt. }
    cbn [value calls final length].
    repeat split.
    + exact Hval.
    + now rewrite Hlen.
    + constructor; [now exists t | exact Hall].
    + exists (p :: ts). split.
      * rewrite Hts, next_stamps, <- app_assoc. reflexivity.
      * constructor; [exact Hp|]. now rewrite Hdt in Hf2.
Qed.

(** Every call carries the geometry and time step the loop started
    with. *)
Lemma loop_call_geometry l ns j c :
  nth_error (calls (foreach l body ns)) j = Some c ->
  geometry_args (args c) = map (num ns) geometry_names.
Proof.
  intros Hj.
  destruct (loop_indexed
              (fun ns' => forall x, is_config x = true -> num ns' x = num ns x)
              (fun _ a => geometry_args a = map (num ns) geometry_names))
    with (l := l) (ns := ns) (j := j) (c := c) as (i & _ & HQ); auto.
  - intros i ns' Hinv. unfold geometry_args, current_args.
    cbn [map geometry_names arg_bw arg_tw arg_twcc arg_cs arg_n_manning
         arg_n_manning_cc arg_s0 arg_dx arg_dt].
    rewrite !entered_config by reflexivity.
    rewrite !Hinv by reflexivity. reflexivity.
  - intros i p t ns' Hinv x Hx. rewrite next_config by assumption. now apply Hinv.
Qed.

(** With a routine bound, the first iteration does call it, on the
    namespace as entered. *)
Lemma loop_first_call i l ns f :
  singlesegment ns = Some f ->
  exists c, nth_error (calls (foreach (i :: l) body ns)) 0 = Some c /\
            args c = current_args (entered i ns) /\
            result c = f (current_args (entered i ns)).
Proof.
  intros Hf.
  destruct (foreach_unrolled i l ns) as [Hf' | f' e Hf' Hc | f' t e Hf' Hc Hp | f' t p Hf' Hc Hp];
    try collide; coincide; cbn [calls nth_error];
    eexists; (split; [reflexivity|]); cbn [args result]; auto.
Qed.

(** *** Independence from leftovers *)

Hypothesis pre_agree :
  forall i ns1 ns2, agree ns1 ns2 ->
    num (pre i ns1) qup = num (pre i ns2) qup /\
    num (pre i ns1) quc = num (pre i ns2) quc.

Lemma agree_set_k i ns1 ns2 :
  agree ns1 ns2 -> agree (upd k (PyInt i) ns1) (upd k (PyInt i) ns2).
Proof.
  intros (Hn & Hq & Ht & Hf). repeat split; auto.
  intros x Hx. destruct x; try discriminate; cbn; now apply Hn.
Qed.

Lemma entered_agree i ns1 ns2 x :
  agree ns1 ns2 -> is_scratch x = false ->
  num (entered i ns1) x = num (entered i ns2) x.
Proof.
  intros Hag Hx.
  destruct (pre_agree i _ _ (agree_set_k i _ _ Hag)) as [Hu Hc].
  destruct Hag as (Hn & _).
  destruct x; try discriminate Hx; try assumption;
    rewrite !entered_num by discriminate; now apply Hn.
Qed.

Lemma entered_args_agree i ns1 ns2 :
  agree ns1 ns2 ->
  current_args (entered i ns1) = current_args (entered i ns2).
Proof.
  intros Hag. apply current_args_ext.
  intros x Hx. now apply entered_agree.
Qed.

Lemma next_agree i p t ns1 ns2 :
  agree ns1 ns2 -> agree (next i p t ns1) (next i p t ns2).
Proof.
  intros Hag. repeat split.
  - intros x Hx.
    pose proof (entered_agree i ns1 ns2 x Hag Hx) as He.
    unfold next. destruct t as [[q v] d].
    destruct x; try discriminate Hx; cbn; rewrite ?mid_num; cbn; auto.
  - rewrite !next_flow. destruct Hag as (_ & -> & _). reflexivity.
  - rewrite !next_stamps. destruct Hag as (_ & _ & -> & _). reflexivity.
  - rewrite !next_fun. now destruct Hag as (_ & _ & _ & ->).
Qed.

Lemma loop_agree l :
  forall ns1 ns2, agree ns1 ns2 ->
    let r1 := foreach l body ns1 in
    let r2 := foreach l body ns2 in
    calls r1 = calls r2 /\ value r1 = value r2 /\
    lst (final r1) q_result = lst (final r2) q_result /\
    lst (final r1) t_result = lst (final r2) t_result.
Proof.
  induction l as [|i l IH]; intros ns1 ns2 Hag; cbn zeta.
  - cbn. destruct Hag as (_ & Hq & Ht & _). auto.
  - pose proof (entered_args_agree i _ _ Hag) as Hargs.
    pose proof (next_agree i) as Hnext.
    destruct Hag as (Hn & Hq & Ht & Hfun).
    pose proof (Hn dt eq_refl) as Hdt.
    destruct (foreach_unrolled i l ns1) as [Hf | f e Hf Hc | f t e Hf Hc Hp | f t p Hf Hc Hp];
      destruct (foreach_unrolled i l ns2) as [Hf' | f' e' Hf' Hc' | f' t' e' Hf' Hc' Hp' | f' t' p' Hf' Hc' Hp'];
      rewrite <- Hfun in Hf';
      try rewrite <- Hargs in Hc'; try rewrite <- Hdt in Hp';
      try collide; try coincide; try collide; try coincide; try collide;
      try coincide;
      cbn [calls value final]; rewrite <- ?Hargs.
    + rewrite !entered_lst. auto.
    + rewrite !entered_lst. auto.
    + rewrite !recorded_flow, !recorded_stamps, !entered_lst, Hq, Ht. auto.
    + destruct (IH (next i p t ns1) (next i p t ns2)) as (Hc1 & Hv1 & Hq1 & Ht1).
      { apply Hnext. repeat split; assumption. }
      rewrite Hc1. auto.
Qed.

(** *** The shape of any run *)

Lemma next_scratch i p t ns :
  (num (next i p t ns) qdc, num (next i p t ns) velc, num (next i p t ns) depthc) = t.
Proof.
  unfold next. rewrite !advanced_num by discriminate.
  destruct t as [[q v] d]. reflexivity.
Qed.

Lemma next_k i p t ns : num (next i p t ns) k = PyInt i.
Proof.
  unfold next. rewrite advanced_num by discriminate.
  destruct t as [[q v] d]. cbn. apply entered_k.
Qed.

Lemma flows_returned a q v d tr :
  flows (mkCall a (inr (q, v, d)) :: tr) = q :: flows tr.
Proof. reflexivity. Qed.

(** Time stamps appended so far, against calls made and flows recorded. *)
Lemma loop_shape l :
  forall ns,
    exists ts,
      lst (final (foreach l body ns)) t_result = lst ns t_result ++ ts /\
      Forall2 (fun i v => py_mul (PyInt i) (num ns dt) = inr v)
              (firstn (length ts) l) ts /\
      (length ts <= length (flows (calls (foreach l body ns))))%nat /\
      (length (flows (calls (foreach l body ns)))
       <= length (calls (foreach l body ns)))%nat /\
      (length (calls (foreach l body ns)) <= length ts + 1)%nat /\
      (value (foreach l body ns) = inr tt ->
       length ts = length l /\ length (calls (foreach l body ns)) = length l) /\
      (forall e, value (foreach l body ns) = inl e -> (length ts < length l)%nat).
Proof.
  induction l as [|i l IH]; intros ns.
  - exists []. cbn. rewrite app_nil_r.
    repeat (split; [solve [reflexivity | constructor | lia]|]).
    try (split; [auto|]). intros e0 He; first [discriminate He | lia].
  - destruct (foreach_unrolled i l ns) as [Hf | f e Hf Hc | f t e Hf Hc Hp | f t p Hf Hc Hp];
      cbn [final calls value].
    + exists []. rewrite entered_lst, app_nil_r. cbn.
      repeat (split; [solve [reflexivity | constructor | lia]|]).
      try (split; [intros Hv; discriminate Hv|]). intros e0 He; first [discriminate He | lia].
    + exists []. rewrite entered_lst, app_nil_r. cbn.
      repeat (split; [solve [reflexivity | constructor | lia]|]).
      try (split; [intros Hv; discriminate Hv|]). intros e0 He; first [discriminate He | lia].
    + exists []. rewrite recorded_stamps, entered_lst, app_nil_r.
      destruct t as [[q v] d]. cbn.
      repeat (split; [solve [reflexivity | constructor | lia]|]).
      try (split; [intros Hv; discriminate Hv|]). intros e0 He; first [discriminate He | lia].
    + destruct (IH (next i p t ns)) as (ts & Hts & Hst & H1 & H2 & H3 & Hok & Herr).
      exists (p :: ts).
      rewrite Hts, next_stamps, <- app_assoc.
      rewrite next_config in Hst by reflexivity.
      destruct t as [[q v] d]. rewrite flows_returned. cbn [app length firstn] in *.
      split; [reflexivity|].
      split; [constructor; assumption|].
      split; [lia|]. split; [lia|]. split; [lia|].
      split.
      * intros Hv. destruct (Hok Hv). lia.
      * intros e He. specialize (Herr e He). lia.
Qed.

(** After a run without exception over at least one index, the state
    names and the result names both hold the triple returned by the last
    call, and [k] holds the last index. *)
Lemma loop_final_state l :
  forall ns i0,
    value (foreach (i0 :: l) body ns) = inr tt ->
    exists before c t l0 ilast,
      calls (foreach (i0 :: l) body ns) = before ++ [c] /\
      result c = inr t /\
      state_of (final (foreach (i0 :: l) body ns)) = t /\
      (num (final (foreach (i0 :: l) body ns)) qdc,
       num (final (foreach (i0 :: l) body ns)) velc,
       num (final (foreach (i0 :: l) body ns)) depthc) = t /\
      i0 :: l = l0 ++ [ilast] /\
      num (final (foreach (i0 :: l) body ns)) k = PyInt ilast.
Proof.
  induction l as [|i1 l IH]; intros ns i0 Hv.
  - destruct (foreach_unrolled i0 [] ns) as [Hf | f e Hf Hc | f t e Hf Hc Hp | f t p Hf Hc Hp];
      cbn [value] in Hv; try discriminate Hv.
    cbn [foreach ret final calls].
    exists [], (mkCall (current_args (entered i0 ns)) (inr t)), t, [], i0.
    repeat split.
    + apply next_state.
    + apply next_scratch.
    + apply next_k.
  - destruct (foreach_unrolled i0 (i1 :: l) ns) as [Hf | f e Hf Hc | f t e Hf Hc Hp | f t p Hf Hc Hp];
      cbn [value] in Hv; try discriminate Hv.
    cbn [final calls].
    destruct (IH (next i0 p t ns) i1 Hv) as (before & c & t' & l0 & ilast & Hcalls & Hres & Hs & Hsc & Hl & Hk).
    exists (mkCall (current_args (entered i0 ns)) (inr t) :: before), c, t', (i0 :: l0), ilast.
    rewrite Hcalls. repeat split; auto.
    cbn [app]. now rewrite <- Hl.
Qed.

Lemma loop_final_state_nonempty l ns :
  l <> [] ->
  value (foreach l body ns) = inr tt ->
  exists before c t l0 ilast,
    calls (foreach l body ns) = before ++ [c] /\
    result c = inr t /\
    state_of (final (foreach l body ns)) = t /\
    (num (final (foreach l body ns)) qdc,
     num (final (foreach l body ns)) velc,
     num (final (foreach l body ns)) depthc) = t /\
    l = l0 ++ [ilast] /\
    num (final (foreach l body ns)) k = PyInt ilast.
Proof.
  intros Hl Hv. destruct l as [|i0 l]; [now elim Hl|].
  now apply loop_final_state.
Qed.

End Stepping.

(** ** The two loop bodies have that shape *)

Definition no_pre : Z -> Ns -> Ns := fun _ ns => ns.
Definition no_mid : Ns -> Ns := fun ns => ns.

(** The namespace after the pulse assignments. *)
Definition pulse_ns (i : Z) (ns : Ns) : Ns := final (pulse i ns).

(** [qus.append(quc)] *)
Definition note_qus (ns : Ns) : Ns := updl qus (lst ns qus ++ [num ns quc]) ns.

Lemma call_then (rest : Triple -> M unit) (ns0 : Ns) :
  (t <- call_singlesegment ;; rest t) ns0 =
  match singlesegment ns0 with
  | None => mkRun ns0 [] (inl (NameError "singlesegment"))
  | Some f =>
      match f (current_args ns0) with
      | inl e => mkRun ns0 [mkCall (current_args ns0) (inl e)] (inl e)
      | inr t =>
          let r := rest t ns0 in
          mkRun (final r) (mkCall (current_args ns0) (inr t) :: calls r) (value r)
      end
  end.
Proof.
  rewrite bind_run. unfold call_singlesegment.
  destruct (singlesegment ns0) as [f|]; [|reflexivity].
  cbn [value final calls app]. destruct (f (current_args ns0)); reflexivity.
Qed.

Lemma pulse_run i ns : pulse i ns = mkRun (pulse_ns i ns) [] (inr tt).
Proof.
  unfold pulse_ns, pulse.
  destruct (i <=? 5); destruct ((5 <? i) && (i <? 10)); reflexivity.
Qed.

Lemma body1_iteration i ns :
  iteration no_pre no_mid i ns (body1 i (upd k (PyInt i) ns)).
Proof.
  unfold body1. rewrite call_then.
  change (upd k (PyInt i) ns) with (entered no_pre i ns).
  remember (entered no_pre i ns) as ns0 eqn:Hns0.
  destruct (singlesegment ns0) as [f|] eqn:Hf.
  - destruct (f (current_args ns0)) as [e|[[q v] d]] eqn:Hc.
    + subst ns0. exact (it_raised no_pre no_mid i ns f e Hf Hc).
    + cbn -[py_mul].
      destruct (py_mul (num ns0 k) (num ns0 dt)) as [e|p] eqn:Hp; subst ns0.
      * exact (it_stamp no_pre no_mid i ns f (q, v, d) e Hf Hc Hp).
      * exact (it_done no_pre no_mid i ns f (q, v, d) p Hf Hc Hp).
  - subst ns0. exact (it_unbound no_pre no_mid i ns Hf).
Qed.

Lemma body2_iteration i ns :
  iteration pulse_ns note_qus i ns (body2 i (upd k (PyInt i) ns)).
Proof.
  unfold body2. rewrite bind_run, pulse_run. cbn [value final calls app].
  change (pulse_ns i (upd k (PyInt i) ns)) with (entered pulse_ns i ns).
  rewrite call_then.
  remember (entered pulse_ns i ns) as ns0 eqn:Hns0.
  destruct (singlesegment ns0) as [f|] eqn:Hf.
  - destruct (f (current_args ns0)) as [e|[[q v] d]] eqn:Hc.
    + subst ns0. exact (it_raised pulse_ns note_qus i ns f e Hf Hc).
    + cbn -[py_mul].
      destruct (py_mul (num ns0 k) (num ns0 dt)) as [e|p] eqn:Hp; subst ns0.
      * exact (it_stamp pulse_ns note_qus i ns f (q, v, d) e Hf Hc Hp).
      * exact (it_done pulse_ns note_qus i ns f (q, v, d) p Hf Hc Hp).
  - subst ns0. exact (it_unbound pulse_ns note_qus i ns Hf).
Qed.

(** The value the pulse assigns to both [qup] and [quc] at index [i]. *)
Lemma pulse_values i ns :
  num (pulse_ns i ns) qup = (if (5 <? i) && (i <? 10) then PyInt 1 else PyFloat 0.21) /\
  num (pulse_ns i ns) quc = (if (5 <? i) && (i <? 10) then PyInt 1 else PyFloat 0.21).
Proof.
  unfold pulse_ns, pulse.
  destruct (i <=? 5); destruct ((5 <? i) && (i <? 10)); split; reflexivity.
Qed.

Lemma no_pre_num i ns x : x <> qup -> x <> quc -> num (no_pre i ns) x = num ns x.
Proof. reflexivity. Qed.

Lemma no_pre_lst i ns y : lst (no_pre i ns) y = lst ns y.
Proof. reflexivity. Qed.

Lemma no_pre_fun i ns : singlesegment (no_pre i ns) = singlesegment ns.
Proof. reflexivity. Qed.

Lemma no_pre_agree i ns1 ns2 :
  agree ns1 ns2 ->
  num (no_pre i ns1) qup = num (no_pre i ns2) qup /\
  num (no_pre i ns1) quc = num (no_pre i ns2) quc.
Proof. intros (Hn & _). split; now apply Hn. Qed.

Lemma no_mid_num ns x : num (no_mid ns) x = num ns x.
Proof. reflexivity. Qed.

Lemma no_mid_lst ns y : y <> qus -> lst (no_mid ns) y = lst ns y.
Proof. reflexivity. Qed.

Lemma no_mid_fun ns : singlesegment (no_mid ns) = singlesegment ns.
Proof. reflexivity. Qed.

Lemma pulse_num i ns x : x <> qup -> x <> quc -> num (pulse_ns i ns) x = num ns x.
Proof.
  intros Hu Hc. unfold pulse_ns, pulse.
  destruct (i <=? 5); destruct ((5 <? i) && (i <? 10));
    destruct x; try reflexivity;
    exfalso; first [now apply Hu | now apply Hc].
Qed.

Lemma pulse_lst i ns y : lst (pulse_ns i ns) y = lst ns y.
Proof.
  unfold pulse_ns, pulse.
  destruct (i <=? 5); destruct ((5 <? i) && (i <? 10)); reflexivity.
Qed.

Lemma pulse_fun i ns : singlesegment (pulse_ns i ns) = singlesegment ns.
Proof.
  unfold pulse_ns, pulse.
  destruct (i <=? 5); destruct ((5 <? i) && (i <? 10)); reflexivity.
Qed.

Lemma pulse_agree i ns1 ns2 :
  agree ns1 ns2 ->
  num (pulse_ns i ns1) qup = num (pulse_ns i ns2) qup /\
  num (pulse_ns i ns1) quc = num (pulse_ns i ns2) quc.
Proof.
  intros _.
  destruct (pulse_values i ns1) as [-> ->].
  destruct (pulse_values i ns2) as [-> ->]. split; reflexivity.
Qed.

Lemma note_qus_num ns x : num (note_qus ns) x = num ns x.
Proof. reflexivity. Qed.

Lemma note_qus_lst ns y : y <> qus -> lst (note_qus ns) y = lst ns y.
Proof. intros Hy. destruct y; try reflexivity. exfalso. now apply Hy. Qed.

Lemma note_qus_fun ns : singlesegment (note_qus ns) = singlesegment ns.
Proof. reflexivity. Qed.

Create HintDb shape discriminated.
#[local] Hint Resolve body1_iteration body2_iteration
  no_pre_num no_pre_lst no_pre_fun no_pre_agree no_mid_num no_mid_lst no_mid_fun
  pulse_num pulse_lst pulse_fun pulse_agree note_qus_num note_qus_lst note_qus_fun
  : shape.

(** ** From a cell to its loop *)

(** The namespace when the loop of experiment 1 starts. *)
Definition start1 (ns : Ns) : Ns :=
  updl t_result [] (updl q_result []
    (upd velp (PyFloat 0.070) (upd depthp (PyFloat 0.010)
      (upd qdp (PyFloat 0.21) (upd quc (PyFloat 0.41)
        (upd qup (PyFloat 0.41) (upd qlat (PyInt 0) ns))))))).

(** The namespace when the loop of experiment 2 starts. *)
Definition start2 (ns : Ns) : Ns :=
  updl t_result [] (updl q_result [] (updl qus []
    (upd velp (PyFloat 0.070) (upd depthp (PyFloat 0.010)
      (upd qdp (PyFloat 0.21) (upd quc (PyFloat 0.21)
        (upd qup (PyFloat 0.21) (upd qlat (PyInt 0) ns)))))))).

Lemma experiment1_loop ns n :
  num ns tsteps = PyInt n ->
  experiment1 ns =
  let r := foreach (upto n) body1 (start1 ns) in
  mkRun (final r) (calls r) (value r).
Proof.
  intros Hn. unfold experiment1, for_k_in_range, start1. cbn. rewrite Hn. cbn.
  destruct (foreach _ _ _); reflexivity.
Qed.

Lemma experiment2_loop ns n :
  num ns tsteps = PyInt n ->
  experiment2 ns =
  let r := foreach (upto n) body2 (start2 ns) in
  mkRun (final r) (calls r) (value r).
Proof.
  intros Hn. unfold experiment2, for_k_in_range, start2. cbn. rewrite Hn. cbn.
  destruct (foreach _ _ _); reflexivity.
Qed.

Lemma experiment1_float ns f :
  num ns tsteps = PyFloat f ->
  experiment1 ns =
  mkRun (start1 ns) []
    (inl (TypeError "'float' object cannot be interpreted as an integer")).
Proof.
  intros Hn. unfold experiment1, for_k_in_range. cbn. rewrite Hn. reflexivity.
Qed.

Lemma experiment2_float ns f :
  num ns tsteps = PyFloat f ->
  experiment2 ns =
  mkRun (start2 ns) []
    (inl (TypeError "'float' object cannot be interpreted as an integer")).
Proof.
  intros Hn. unfold experiment2, for_k_in_range. cbn. rewrite Hn. reflexivity.
Qed.

(** ** Lists and traces *)

Lemma upto_length n : length (upto n) = Z.to_nat n.
Proof. unfold upto. now rewrite length_map, length_seq. Qed.

Lemma upto_nth n j i :
  nth_error (upto n) j = Some i -> i = Z.of_nat j /\ (j < Z.to_nat n)%nat.
Proof.
  unfold upto. intros H.
  rewrite nth_error_map, nth_error_seq in H.
  destruct (Nat.ltb_spec j (Z.to_nat n)) as [Hlt|Hge]; [|discriminate H].
  cbn in H. split; [congruence | exact Hlt].
Qed.

Lemma threaded_head s tr c :
  threaded s tr -> nth_error tr 0 = Some c -> prev_state (args c) = s.
Proof.
  destruct tr as [|c0 tr]; intros Ht Hc; [discriminate Hc|].
  injection Hc as <-. exact (proj1 Ht).
Qed.

Lemma threaded_next tr :
  forall s j c,
    threaded s tr -> nth_error tr (S j) = Some c ->
    exists c' t, nth_error tr j = Some c' /\ result c' = inr t /\
                 prev_state (args c) = t.
Proof.
  induction tr as [|c0 tr IH]; intros s j c Ht Hc; [discriminate Hc|].
  destruct Ht as [_ Ht]. cbn [nth_error] in Hc.
  destruct (result c0) as [e|t] eqn:Hr.
  - subst tr. destruct j; discriminate Hc.
  - destruct j as [|j].
    + exists c0, t. repeat split; auto. now apply threaded_head with (tr := tr).
    + destruct (IH t j c Ht Hc) as (c' & t' & H1 & H2 & H3).
      now exists c', t'.
Qed.

(** ** State threading *)

Lemma experiment1_threaded ns :
  threaded (PyFloat 0.21, PyFloat 0.070, PyFloat 0.010) (calls (experiment1 ns)).
Proof.
  destruct (num ns tsteps) as [n|f] eqn:Hn.
  - rewrite (experiment1_loop ns n Hn). cbn [calls].
    apply loop_threaded with (pre := no_pre) (mid := no_mid) (ns := start1 ns);
      auto with shape.
  - rewrite (experiment1_float ns f Hn). exact I.
Qed.

Lemma experiment2_threaded ns :
  threaded (PyFloat 0.21, PyFloat 0.070, PyFloat 0.010) (calls (experiment2 ns)).
Proof.
  destruct (num ns tsteps) as [n|f] eqn:Hn.
  - rewrite (experiment2_loop ns n Hn). cbn [calls].
    apply loop_threaded with (pre := pulse_ns) (mid := note_qus) (ns := start2 ns);
      auto with shape.
  - rewrite (experiment2_float ns f Hn). exact I.
Qed.

(** C1. State threading.  In both experiments, whatever routine is bound
    and whatever the namespace holds when the cell starts: the call made at
    step 0 receives as previous state [(qdp, velp, depthp)] the initial
    conditions written at the top of the cell, [(0.21, 0.070, 0.010)], and
    the call made at step [j+1] receives exactly the triple
    [(qdc, velc, depthc)] that the call at step [j] returned. *)
Theorem state_threading (ns : Ns) :
  (forall c, nth_error (calls (experiment1 ns)) 0 = Some c ->
     prev_state (args c) = (PyFloat 0.21, PyFloat 0.070, PyFloat 0.010)) /\
  (forall j c, nth_error (calls (experiment1 ns)) (S j) = Some c ->
     exists c' t, nth_error (calls (experiment1 ns)) j = Some c' /\
                  result c' = inr t /\ prev_state (args c) = t) /\
  (forall c, nth_error (calls (experiment2 ns)) 0 = Some c ->
     prev_state (args c) = (PyFloat 0.21, PyFloat 0.070, PyFloat 0.010)) /\
  (forall j c, nth_error (calls (experiment2 ns)) (S j) = Some c ->
     exists c' t, nth_error (calls (experiment2 ns)) j = Some c' /\
                  result c' = inr t /\ prev_state (args c) = t).
Proof.
  pose proof (experiment1_threaded ns) as H1.
  pose proof (experiment2_threaded ns) as H2.
  set (init := (PyFloat 0.21, PyFloat 0.070, PyFloat 0.010)) in *.
  repeat split.
  - intros c. now apply threaded_head with (tr := calls (experiment1 ns)).
  - intros j c. now apply threaded_next with (tr := calls (experiment1 ns)) (s := init).
  - intros c. now apply threaded_head with (tr := calls (experiment2 ns)).
  - intros j c. now apply threaded_next with (tr := calls (experiment2 ns)) (s := init).
Qed.

(** ** Geometry is only read *)

Lemma start1_geometry ns :
  map (num (start1 ns)) geometry_names = map (num ns) geometry_names.
Proof. reflexivity. Qed.

Lemma start2_geometry ns :
  map (num (start2 ns)) geometry_names = map (num ns) geometry_names.
Proof. reflexivity. Qed.

Lemma map_config_eq ns ns' :
  (forall x, is_config x = true -> num ns' x = num ns x) ->
  map (num ns') geometry_names = map (num ns) geometry_names.
Proof.
  intros H. cbn [map geometry_names]. rewrite !H by reflexivity. reflexivity.
Qed.

Lemma experiment1_geometry ns :
  map (num (final (experiment1 ns))) geometry_names = map (num ns) geometry_names.
Proof.
  rewrite <- (start1_geometry ns).
  destruct (num ns tsteps) as [n|f] eqn:Hn.
  - rewrite (experiment1_loop ns n Hn). cbn [final].
    apply map_config_eq. intros x Hx.
    apply (loop_config no_pre no_mid body1); auto with shape.
  - rewrite (experiment1_float ns f Hn). reflexivity.
Qed.

Lemma experiment2_geometry ns :
  map (num (final (experiment2 ns))) geometry_names = map (num ns) geometry_names.
Proof.
  rewrite <- (start2_geometry ns).
  destruct (num ns tsteps) as [n|f] eqn:Hn.
  - rewrite (experiment2_loop ns n Hn). cbn [final].
    apply map_config_eq. intros x Hx.
    apply (loop_config pulse_ns note_qus body2); auto with shape.
  - rewrite (experiment2_float ns f Hn). reflexivity.
Qed.

Lemma experiment1_call_geometry ns j c :
  nth_error (calls (experiment1 ns)) j = Some c ->
  geometry_args (args c) = map (num ns) geometry_names.
Proof.
  rewrite <- (start1_geometry ns).
  destruct (num ns tsteps) as [n|f] eqn:Hn.
  - rewrite (experiment1_loop ns n Hn). cbn [calls].
    apply (loop_call_geometry no_pre no_mid body1); auto with shape.
  - rewrite (experiment1_float ns f Hn). destruct j; discriminate.
Qed.

Lemma experiment2_call_geometry ns j c :
  nth_error (calls (experiment2 ns)) j = Some c ->
  geometry_args (args c) = map (num ns) geometry_names.
Proof.
  rewrite <- (start2_geometry ns).
  destruct (num ns tsteps) as [n|f] eqn:Hn.
  - rewrite (experiment2_loop ns n Hn). cbn [calls].
    apply (loop_call_geometry pulse_ns note_qus body2); auto with shape.
  - rewrite (experiment2_float ns f Hn). destruct j; discriminate.
Qed.

Lemma experiment1_fun ns :
  singlesegment (final (experiment1 ns)) = singlesegment ns.
Proof.
  destruct (num ns tsteps) as [n|f] eqn:Hn.
  - rewrite (experiment1_loop ns n Hn). cbn [final].
    rewrite (loop_fun no_pre no_mid body1); auto with shape.
  - rewrite (experiment1_float ns f Hn). reflexivity.
Qed.

Lemma experiment1_tsteps ns :
  num (final (experiment1 ns)) tsteps = num ns tsteps.
Proof.
  destruct (num ns tsteps) as [n|f] eqn:Hn.
  - rewrite (experiment1_loop ns n Hn). cbn [final].
    rewrite (loop_config no_pre no_mid body1); auto with shape.
  - rewrite (experiment1_float ns f Hn). exact Hn.
Qed.

(** C8. Geometry immutability.  Whatever the namespace, the routine and
    the number of steps, and whether or not the run ends in an exception:
    after the cell of either experiment the names [bw], [tw], [twcc], [cs],
    [n_manning], [n_manning_cc], [s0], [dx] and [dt] are bound to the
    values they had before it, and every call made in between was handed
    exactly those values. *)
Theorem geometry_never_mutated (ns : Ns) :
  map (num (final (experiment1 ns))) geometry_names = map (num ns) geometry_names /\
  map (num (final (experiment2 ns))) geometry_names = map (num ns) geometry_names /\
  (forall c, In c (calls (experiment1 ns)) ->
     geometry_args (args c) = map (num ns) geometry_names) /\
  (forall c, In c (calls (experiment2 ns)) ->
     geometry_args (args c) = map (num ns) geometry_names).
Proof.
  split; [apply experiment1_geometry|].
  split; [apply experiment2_geometry|].
  split; intros c Hin; apply In_nth_error in Hin; destruct Hin as [j Hj].
  - now apply experiment1_call_geometry with (j := j).
  - now apply experiment2_call_geometry with (j := j).
Qed.

(** ** Upstream flow: previous equals current *)

Lemma experiment1_upstream ns j c :
  nth_error (calls (experiment1 ns)) j = Some c ->
  arg_qup (args c) = PyFloat 0.41 /\ arg_quc (args c) = PyFloat 0.41.
Proof.
  destruct (num ns tsteps) as [n|f] eqn:Hn.
  - rewrite (experiment1_loop ns n Hn). cbn [calls]. intros Hj.
    destruct (loop_indexed no_pre no_mid body1) with
      (Inv := fun ns' => num ns' qup = PyFloat 0.41 /\ num ns' quc = PyFloat 0.41)
      (Q := fun (_ : Z) a => arg_qup a = PyFloat 0.41 /\ arg_quc a = PyFloat 0.41)
      (l := upto n) (ns := start1 ns) (j := j) (c := c) as (i & _ & HQ);
      auto with shape.
    intros i p [[q v] d] ns' Hinv. exact Hinv.
  - rewrite (experiment1_float ns f Hn). destruct j; discriminate.
Qed.

Lemma experiment2_upstream ns j c :
  nth_error (calls (experiment2 ns)) j = Some c ->
  let i := Z.of_nat j in
  arg_qup (args c) = (if (5 <? i) && (i <? 10) then PyInt 1 else PyFloat 0.21) /\
  arg_quc (args c) = (if (5 <? i) && (i <? 10) then PyInt 1 else PyFloat 0.21).
Proof.
  destruct (num ns tsteps) as [n|f] eqn:Hn.
  - rewrite (experiment2_loop ns n Hn). cbn [calls]. intros Hj.
    destruct (loop_indexed pulse_ns note_qus body2) with
      (Inv := fun _ : Ns => True)
      (Q := fun i a =>
              arg_qup a = (if (5 <? i) && (i <? 10) then PyInt 1 else PyFloat 0.21) /\
              arg_quc a = (if (5 <? i) && (i <? 10) then PyInt 1 else PyFloat 0.21))
      (l := upto n) (ns := start2 ns) (j := j) (c := c) as (i & Hi & HQ);
      auto with shape.
    + intros i ns' _. apply pulse_values.
    + apply upto_nth in Hi. destruct Hi as [-> _]. exact HQ.
  - rewrite (experiment2_float ns f Hn). destruct j; discriminate.
Qed.

(** C10. In every call made by either experiment, the upstream flow at
    the previous time step and the upstream flow at the current time step
    are the same value. *)
Theorem upstream_previous_equals_current (ns : Ns) (c : Call) :
  In c (calls (experiment1 ns)) \/ In c (calls (experiment2 ns)) ->
  arg_qup (args c) = arg_quc (args c).
Proof.
  intros [Hin|Hin]; apply In_nth_error in Hin; destruct Hin as [j Hj].
  - destruct (experiment1_upstream ns j c Hj) as [-> ->]. reflexivity.
  - destruct (experiment2_upstream ns j c Hj) as [-> ->]. reflexivity.
Qed.

(** ** Zero steps *)

(** C6. Zero-step run.  With [tsteps = 0] the loop body is never entered:
    the cell ends normally, [q_result] and [t_result] are empty, and the
    routine was not called.  The same holds for the pulse experiment and
    its [qus]. *)
Theorem zero_step_run (ns : Ns) :
  num ns tsteps = PyInt 0 ->
  (value (experiment1 ns) = inr tt /\
   calls (experiment1 ns) = [] /\
   lst (final (experiment1 ns)) q_result = [] /\
   lst (final (experiment1 ns)) t_result = []) /\
  (value (experiment2 ns) = inr tt /\
   calls (experiment2 ns) = [] /\
   lst (final (experiment2 ns)) q_result = [] /\
   lst (final (experiment2 ns)) t_result = [] /\
   lst (final (experiment2 ns)) qus = []).
Proof.
  intros Hn.
  rewrite (experiment1_loop ns 0 Hn), (experiment2_loop ns 0 Hn).
  cbn. repeat split.
Qed.

(** ** Complete runs *)

Definition returned (c : Call) : Prop := exists t, result c = inr t.





Lemma upto_bounds n i : In i (upto n) -> 0 <= i < n.
Proof.
  intros Hin. apply In_nth_error in Hin. destruct Hin as [j Hj].
  apply upto_nth in Hj. lia.
Qed.

(** A complete run: no exception, one returned call per step, the flows of
    those calls in [q_result] and the products [k * dt] in [t_result]. *)
Definition complete (ns : Ns) (n : Z) (r : Run unit) : Prop :=
  value r = inr tt /\
  length (calls r) = Z.to_nat n /\
  Forall returned (calls r) /\
  lst (final r) q_result = flows (calls r) /\
  Forall2 (fun i v => py_mul (PyInt i) (num ns dt) = inr v)
          (upto n) (lst (final r) t_result).

Section Total.
Variable ns : Ns.
Variable f : solver.
Variable n : Z.
Hypothesis bound : singlesegment ns = Some f.
Hypothesis returns : forall a, exists t, f a = inr t.
Hypothesis steps : num ns tsteps = PyInt n.
Hypothesis stamps :
  forall i, 0 <= i < n -> exists v, py_mul (PyInt i) (num ns dt) = inr v.

Lemma stamps_upto :
  Forall (fun i => exists v, py_mul (PyInt i) (num ns dt) = inr v) (upto n).
Proof.
  apply Forall_forall. intros i Hi. apply stamps. now apply upto_bounds.
Qed.


Lemma experiment2_complete : complete ns n (experiment2 ns).
Proof.
  rewrite (experiment2_loop ns n steps). cbn zeta.
  destruct (loop_complete pulse_ns note_qus body2) with
    (l := upto n) (ns := start2 ns) (f := f)
    as (Hv & Hlen & Hall & ts & Hts & Hst); auto with shape.
  { exact stamps_upto. }
  unfold complete. cbn [value calls final].
  rewrite Hlen, upto_length. repeat split; auto.
  - rewrite loop_flows with (pre := pulse_ns) (mid := note_qus); auto with shape.
  - rewrite Hts. exact Hst.
Qed.
End Total.




(** With an [int] time step, [k * dt] is always defined. *)
Lemma py_mul_int i d : py_mul (PyInt i) (PyInt d) = inr (PyInt (i * d)).
Proof. reflexivity. Qed.

(** ** The pulse *)

Lemma foreach2_unrolled i l ns :
  unrolled pulse_ns note_qus body2 i l ns (foreach (i :: l) body2 ns).
Proof. apply foreach_unrolled; auto with shape. Qed.

Lemma next2_qus i p t ns :
  lst (next pulse_ns note_qus i p t ns) qus
  = lst ns qus ++ [arg_quc (current_args (entered pulse_ns i ns))].
Proof.
  destruct t as [[q v] d]. unfold next, advanced, recorded, note_qus.
  cbn. unfold entered. rewrite pulse_lst. reflexivity.
Qed.

(** In a run without exception, [qus] grows by the [quc] argument of each
    call. *)
Lemma loop2_qus l :
  forall ns,
    value (foreach l body2 ns) = inr tt ->
    lst (final (foreach l body2 ns)) qus
    = lst ns qus ++ map (fun c => arg_quc (args c)) (calls (foreach l body2 ns)).
Proof.
  induction l as [|i l IH]; intros ns Hv.
  - cbn. now rewrite app_nil_r.
  - destruct (foreach2_unrolled i l ns) as [Hf | f e Hf Hc | f t e Hf Hc Hp | f t p Hf Hc Hp];
      cbn [value] in Hv; try discriminate Hv.
    cbn [final calls map args].
    rewrite (IH _ Hv), next2_qus, <- app_assoc. reflexivity.
Qed.

(** For sixty steps every product [k * dt] is defined, whatever kind of
    number [dt] is. *)
Lemma stamps_sixty d i :
  0 <= i < 60 -> exists v, py_mul (PyInt i) d = inr v.
Proof.
  intros Hi. destruct d as [z|g]; [eexists; reflexivity|].
  assert (Hall : forallb (fun i => negb (PrimFloat.is_infinity (float_of_Z i)))
                         (upto 60) = true) by (vm_compute; reflexivity).
  rewrite forallb_forall in Hall.
  assert (Hin : In i (upto 60)).
  { unfold upto. replace i with (Z.of_nat (Z.to_nat i)) by lia.
    apply in_map, in_seq. lia. }
  specialize (Hall i Hin). apply negb_true_iff in Hall.
  unfold py_mul, py_float_of_int. rewrite Hall. eexists; reflexivity.
Qed.

(** In a complete run of the pulse experiment, step [j] calls the routine
    with the pulse value in both upstream arguments and appends that value
    to [qus]. *)
Lemma experiment2_pulse (ns : Ns) (f : solver) (n : Z) :
  singlesegment ns = Some f ->
  (forall a, exists t, f a = inr t) ->
  num ns tsteps = PyInt n ->
  (forall i, 0 <= i < n -> exists v, py_mul (PyInt i) (num ns dt) = inr v) ->
  forall j, (j < Z.to_nat n)%nat ->
    exists c,
      nth_error (calls (experiment2 ns)) j = Some c /\
      arg_qup (args c)
      = (if (5 <? Z.of_nat j) && (Z.of_nat j <? 10) then PyInt 1 else PyFloat 0.21) /\
      arg_quc (args c)
      = (if (5 <? Z.of_nat j) && (Z.of_nat j <? 10) then PyInt 1 else PyFloat 0.21) /\
      nth_error (lst (final (experiment2 ns)) qus) j
      = Some (if (5 <? Z.of_nat j) && (Z.of_nat j <? 10) then PyInt 1 else PyFloat 0.21).
Proof.
  intros Hf Hret Hn Hst j Hj.
  destruct (experiment2_complete ns f n Hf Hret Hn Hst) as (Hv & Hlen & _).
  destruct (nth_error (calls (experiment2 ns)) j) as [c|] eqn:Hcj.
  2:{ apply nth_error_None in Hcj. lia. }
  destruct (experiment2_upstream ns j c Hcj) as [Hu Hq]. cbn zeta in Hu, Hq.
  exists c. split; [reflexivity|]. split; [exact Hu|]. split; [exact Hq|].
  rewrite <- Hq. clear Hu Hq.
  revert Hv Hcj. rewrite (experiment2_loop ns n Hn). cbn [value calls final].
  intros Hv Hcj. rewrite (loop2_qus _ _ Hv).
  change (lst (start2 ns) qus) with (@nil pyval). cbn [app].
  exact (map_nth_error (fun c => arg_quc (args c)) j _ Hcj).
Qed.

(** C2. Pulse generator, exact scenario.  With sixty steps and a routine
    that returns on every call, the pulse experiment calls the routine at
    every step [j] in [0, 59]; for [j] in {6, 7, 8, 9} both upstream
    arguments [qup] and [quc] and the [j]-th entry of [qus] are [1], and
    for every other [j] (including all [j >= 10]) they are [0.21]. *)
Theorem pulse_exact_scenario (ns : Ns) (f : solver) :
  singlesegment ns = Some f ->
  (forall a, exists t, f a = inr t) ->
  num ns tsteps = PyInt 60 ->
  forall j, (j < 60)%nat ->
    exists c,
      nth_error (calls (experiment2 ns)) j = Some c /\
      ((6 <= j <= 9)%nat ->
         arg_qup (args c) = PyInt 1 /\ arg_quc (args c) = PyInt 1 /\
         nth_error (lst (final (experiment2 ns)) qus) j = Some (PyInt 1)) /\
      ((j < 6 \/ 9 < j)%nat ->
         arg_qup (args c) = PyFloat 0.21 /\ arg_quc (args c) = PyFloat 0.21 /\
         nth_error (lst (final (experiment2 ns)) qus) j = Some (PyFloat 0.21)).
Proof.
  intros Hf Hret Hn j Hj.
  assert (Hj' : (j < Z.to_nat 60)%nat) by lia.
  destruct (experiment2_pulse ns f 60 Hf Hret Hn
              (fun i Hi => stamps_sixty (num ns dt) i Hi) j Hj')
    as (c & Hc & Hu & Hq & Hqus).
  exists c. split; [exact Hc|].
  split; intros Hrange.
  - assert (Hb : (5 <? Z.of_nat j) && (Z.of_nat j <? 10) = true).
    { apply andb_true_iff. split; apply Z.ltb_lt; lia. }
    rewrite Hb in Hu, Hq, Hqus. auto.
  - assert (Hb : (5 <? Z.of_nat j) && (Z.of_nat j <? 10) = false).
    { apply andb_false_iff. destruct Hrange; [left|right]; apply Z.ltb_ge; lia. }
    rewrite Hb in Hu, Hq, Hqus. auto.
Qed.

(** ** No validation before stepping *)

Lemma upto_pos n : 0 < n -> exists l, upto n = 0 :: l.
Proof.
  intros Hn. unfold upto.
  destruct (Z.to_nat n) as [|m] eqn:Hm; [lia|].
  cbn. eexists; reflexivity.
Qed.

Lemma experiment1_first_call ns f n :
  singlesegment ns = Some f -> num ns tsteps = PyInt n -> 0 < n ->
  exists c, nth_error (calls (experiment1 ns)) 0 = Some c /\
            result c = f (args c).
Proof.
  intros Hf Hn Hpos. rewrite (experiment1_loop ns n Hn). cbn [calls].
  destruct (upto_pos n Hpos) as [l ->].
  destruct (loop_first_call no_pre no_mid body1) with
    (i := 0) (l := l) (ns := start1 ns) (f := f) as (c & Hc & Ha & Hr);
    auto with shape.
  exists c. split; [exact Hc|]. now rewrite Ha.
Qed.

Lemma experiment2_first_call ns f n :
  singlesegment ns = Some f -> num ns tsteps = PyInt n -> 0 < n ->
  exists c, nth_error (calls (experiment2 ns)) 0 = Some c /\
            result c = f (args c).
Proof.
  intros Hf Hn Hpos. rewrite (experiment2_loop ns n Hn). cbn [calls].
  destruct (upto_pos n Hpos) as [l ->].
  destruct (loop_first_call pulse_ns note_qus body2) with
    (i := 0) (l := l) (ns := start2 ns) (f := f) as (c & Hc & Ha & Hr);
    auto with shape.
  exists c. split; [exact Hc|]. now rewrite Ha.
Qed.

(** The order on numbers, used only to say which configurations count as
    invalid.  A mixed comparison goes through the float of the [int]. *)
Definition py_ltb (a b : pyval) : bool :=
  match a, b with
  | PyInt x, PyInt y => x <? y
  | PyInt x, PyFloat g => PrimFloat.ltb (float_of_Z x) g
  | PyFloat f, PyInt y => PrimFloat.ltb f (float_of_Z y)
  | PyFloat f, PyFloat g => PrimFloat.ltb f g
  end.

Definition py_leb (a b : pyval) : bool :=
  match a, b with
  | PyInt x, PyInt y => x <=? y
  | PyInt x, PyFloat g => PrimFloat.leb (float_of_Z x) g
  | PyFloat f, PyInt y => PrimFloat.leb f (float_of_Z y)
  | PyFloat f, PyFloat g => PrimFloat.leb f g
  end.

(** Flood plain narrower than the bankfull width, or a time step or a
    segment length that is not positive. *)
Definition invalid_configuration (ns : Ns) : Prop :=
  py_ltb (num ns twcc) (num ns tw) = true \/
  py_leb (num ns dt) (PyInt 0) = true \/
  py_leb (num ns dx) (PyInt 0) = true.

(** The run was refused before its first step. *)
Definition rejected_before_stepping (r : Run unit) : Prop :=
  calls r = [] /\ exists e, value r = inl e.

(** The notebook's set-up with a 100 m flood plain around a 448 m channel,
    with a zero time step, and with a negative segment length. *)
Definition narrow_ns : Ns := upd twcc (PyFloat 100.0) demo_ns.
Definition zero_dt_ns : Ns := upd dt (PyInt 0) demo_ns.
Definition negative_dx_ns : Ns := upd dx (PyFloat (-2000.0)) demo_ns.

(** C4, as stated, fails: each of the three invalid configurations runs
    all sixty steps, calling the routine sixty times, and ends normally. *)
Lemma boundary_rejection_counterexample :
  (invalid_configuration narrow_ns /\
   ~ rejected_before_stepping (experiment1 narrow_ns) /\
   value (experiment1 narrow_ns) = inr tt /\
   length (calls (experiment1 narrow_ns)) = 60%nat) /\
  (invalid_configuration zero_dt_ns /\
   ~ rejected_before_stepping (experiment1 zero_dt_ns) /\
   value (experiment1 zero_dt_ns) = inr tt /\
   length (calls (experiment1 zero_dt_ns)) = 60%nat) /\
  (invalid_configuration negative_dx_ns /\
   ~ rejected_before_stepping (experiment1 negative_dx_ns) /\
   value (experiment1 negative_dx_ns) = inr tt /\
   length (calls (experiment1 negative_dx_ns)) = 60%nat).
Proof.
  split; [|split].
  - split; [left; vm_compute; reflexivity|].
    split; [intros [_ [e He]]; vm_compute in He; discriminate He|].
    split; vm_compute; reflexivity.
  - split; [right; left; vm_compute; reflexivity|].
    split; [intros [_ [e He]]; vm_compute in He; discriminate He|].
    split; vm_compute; reflexivity.
  - split; [right; right; vm_compute; reflexivity|].
    split; [intros [_ [e He]]; vm_compute in He; discriminate He|].
    split; vm_compute; reflexivity.
Qed.

(** C4, amended.  The cells validate nothing: for any configuration,
    valid or not, with a routine bound and at least one step requested,
    step 0 of either experiment calls the routine, handing it the
    geometry, slope, roughness, segment length and time step exactly as
    the namespace holds them; what the run does next is whatever that
    call does. *)
Theorem no_validation_before_stepping (ns : Ns) (f : solver) (n : Z) :
  singlesegment ns = Some f ->
  num ns tsteps = PyInt n ->
  0 < n ->
  forall r, r = experiment1 ns \/ r = experiment2 ns ->
    exists c,
      nth_error (calls r) 0 = Some c /\
      geometry_args (args c) = map (num ns) geometry_names /\
      result c = f (args c).
Proof.
  intros Hf Hn Hpos r [-> | ->].
  - destruct (experiment1_first_call ns f n Hf Hn Hpos) as (c & Hc & Hr).
    exists c. repeat split; auto.
    now apply experiment1_call_geometry with (j := 0%nat).
  - destruct (experiment2_first_call ns f n Hf Hn Hpos) as (c & Hc & Hr).
    exists c. repeat split; auto.
    now apply experiment2_call_geometry with (j := 0%nat).
Qed.

Lemma no_validation_before_stepping_witness :
  exists c,
    nth_error (calls (experiment1 narrow_ns)) 0 = Some c /\
    geometry_args (args c) = map (num narrow_ns) geometry_names /\
    result c = mean_solver (args c).
Proof.
  apply (no_validation_before_stepping narrow_ns mean_solver 60);
    [reflexivity | reflexivity | lia | left; reflexivity].
Defined.

(** ** Runs do not depend on leftovers *)

(** The names bound by the set-up cells. *)
Definition setup_names : list var :=
  [dt; tsteps; dx; bw; tw; twcc; cs; n_manning; n_manning_cc; s0].

(** Two namespaces hold the same configuration: the same routine and the
    same values for the set-up names.  Everything else, such as results
    and state left behind by an earlier run, may differ. *)
Definition same_setup (ns1 ns2 : Ns) : Prop :=
  map (num ns1) setup_names = map (num ns2) setup_names /\
  singlesegment ns1 = singlesegment ns2.

Definition outputs (r : Run unit) : list pyval * list pyval :=
  (lst (final r) q_result, lst (final r) t_result).

Lemma start1_agree ns1 ns2 : same_setup ns1 ns2 -> agree (start1 ns1) (start1 ns2).
Proof.
  intros [Hm Hf]. cbn [map setup_names] in Hm.
  injection Hm as Hdt Hts Hdx Hbw Htw Htwcc Hcs Hn Hncc Hs0.
  repeat split; auto.
  intros x Hx. destruct x; try discriminate Hx; cbn; auto.
Qed.

Lemma start2_agree ns1 ns2 : same_setup ns1 ns2 -> agree (start2 ns1) (start2 ns2).
Proof.
  intros [Hm Hf]. cbn [map setup_names] in Hm.
  injection Hm as Hdt Hts Hdx Hbw Htw Htwcc Hcs Hn Hncc Hs0.
  repeat split; auto.
  intros x Hx. destruct x; try discriminate Hx; cbn; auto.
Qed.

Lemma same_setup_tsteps ns1 ns2 :
  same_setup ns1 ns2 -> num ns1 tsteps = num ns2 tsteps.
Proof.
  intros [Hm _]. cbn [map setup_names] in Hm.
  now injection Hm as _ Hts _ _ _ _ _ _ _ _.
Qed.

Lemma experiment1_same ns1 ns2 :
  same_setup ns1 ns2 ->
  calls (experiment1 ns1) = calls (experiment1 ns2) /\
  value (experiment1 ns1) = value (experiment1 ns2) /\
  outputs (experiment1 ns1) = outputs (experiment1 ns2).
Proof.
  intros Hs. pose proof (same_setup_tsteps _ _ Hs) as Hts.
  unfold outputs.
  destruct (num ns2 tsteps) as [n|g] eqn:Hn.
  - rewrite (experiment1_loop ns1 n Hts), (experiment1_loop ns2 n Hn).
    cbn [final calls value].
    destruct (loop_agree no_pre no_mid body1) with
      (l := upto n) (ns1 := start1 ns1) (ns2 := start1 ns2)
      as (Hc & Hv & Hq & Ht); auto with shape.
    { now apply start1_agree. }
    rewrite Hc, Hv, Hq, Ht. auto.
  - rewrite (experiment1_float ns1 g Hts), (experiment1_float ns2 g Hn).
    auto.
Qed.

Lemma experiment2_same ns1 ns2 :
  same_setup ns1 ns2 ->
  calls (experiment2 ns1) = calls (experiment2 ns2) /\
  value (experiment2 ns1) = value (experiment2 ns2) /\
  outputs (experiment2 ns1) = outputs (experiment2 ns2).
Proof.
  intros Hs. pose proof (same_setup_tsteps _ _ Hs) as Hts.
  unfold outputs.
  destruct (num ns2 tsteps) as [n|g] eqn:Hn.
  - rewrite (experiment2_loop ns1 n Hts), (experiment2_loop ns2 n Hn).
    cbn [final calls value].
    destruct (loop_agree pulse_ns note_qus body2) with
      (l := upto n) (ns1 := start2 ns1) (ns2 := start2 ns2)
      as (Hc & Hv & Hq & Ht); auto with shape.
    { now apply start2_agree. }
    rewrite Hc, Hv, Hq, Ht. auto.
  - rewrite (experiment2_float ns1 g Hts), (experiment2_float ns2 g Hn).
    auto.
Qed.

Lemma experiment2_fun ns :
  singlesegment (final (experiment2 ns)) = singlesegment ns.
Proof.
  destruct (num ns tsteps) as [n|f] eqn:Hn.
  - rewrite (experiment2_loop ns n Hn). cbn [final].
    rewrite loop_fun with (pre := pulse_ns) (mid := note_qus); auto with shape.
  - rewrite (experiment2_float ns f Hn). reflexivity.
Qed.

Lemma experiment2_tsteps ns :
  num (final (experiment2 ns)) tsteps = num ns tsteps.
Proof.
  destruct (num ns tsteps) as [n|f] eqn:Hn.
  - rewrite (experiment2_loop ns n Hn). cbn [final].
    rewrite loop_config with (pre := pulse_ns) (mid := note_qus); auto with shape.
  - rewrite (experiment2_float ns f Hn). exact Hn.
Qed.

Lemma setup_from_geometry ns ns' :
  map (num ns') geometry_names = map (num ns) geometry_names ->
  num ns' tsteps = num ns tsteps ->
  singlesegment ns' = singlesegment ns ->
  same_setup ns' ns.
Proof.
  intros Hg Hts Hf. cbn [map geometry_names] in Hg.
  injection Hg as Hbw Htw Htwcc Hcs Hn Hncc Hs0 Hdx Hdt.
  split; [|exact Hf]. cbn [map setup_names].
  now rewrite Hdt, Hts, Hdx, Hbw, Htw, Htwcc, Hcs, Hn, Hncc, Hs0.
Qed.

Lemma experiment1_keeps_setup ns : same_setup (final (experiment1 ns)) ns.
Proof.
  apply setup_from_geometry.
  - apply experiment1_geometry.
  - apply experiment1_tsteps.
  - apply experiment1_fun.
Qed.

Lemma experiment2_keeps_setup ns : same_setup (final (experiment2 ns)) ns.
Proof.
  apply setup_from_geometry.
  - apply experiment2_geometry.
  - apply experiment2_tsteps.
  - apply experiment2_fun.
Qed.

(** C5. Determinism and run idempotence.  The routine being a function of
    its arguments, the calls made, the way the run ends and the two output
    sequences [q_result] and [t_result] of an experiment depend only on the
    configuration (the set-up names and the routine bound): two namespaces
    with the same configuration give the same run whatever else they hold,
    and running an experiment again in the namespace left by an earlier
    run of either experiment gives the same outputs as the first time. *)
Theorem deterministic_and_idempotent (ns1 ns2 : Ns) :
  same_setup ns1 ns2 ->
  (calls (experiment1 ns1) = calls (experiment1 ns2) /\
   value (experiment1 ns1) = value (experiment1 ns2) /\
   outputs (experiment1 ns1) = outputs (experiment1 ns2)) /\
  (calls (experiment2 ns1) = calls (experiment2 ns2) /\
   value (experiment2 ns1) = value (experiment2 ns2) /\
   outputs (experiment2 ns1) = outputs (experiment2 ns2)) /\
  outputs (experiment1 (final (experiment1 ns1))) = outputs (experiment1 ns1) /\
  outputs (experiment1 (final (experiment2 ns1))) = outputs (experiment1 ns1) /\
  outputs (experiment2 (final (experiment1 ns1))) = outputs (experiment2 ns1) /\
  outputs (experiment2 (final (experiment2 ns1))) = outputs (experiment2 ns1).
Proof.
  intros Hs.
  split; [now apply experiment1_same|].
  split; [now apply experiment2_same|].
  repeat split.
  - apply experiment1_same, experiment1_keeps_setup.
  - apply experiment1_same, experiment2_keeps_setup.
  - apply experiment2_same, experiment1_keeps_setup.
  - apply experiment2_same, experiment2_keeps_setup.
Qed.

(** A namespace with the same configuration as [short_ns 3] but full of
    leftovers. *)
Definition cluttered_ns : Ns :=
  updl q_result [PyInt 7; PyInt 8] (upd qdp (PyFloat 99.0) (upd k (PyInt 41) (short_ns 3))).

Lemma deterministic_and_idempotent_witness :
  (calls (experiment1 cluttered_ns) = calls (experiment1 (short_ns 3)) /\
   value (experiment1 cluttered_ns) = value (experiment1 (short_ns 3)) /\
   outputs (experiment1 cluttered_ns) = outputs (experiment1 (short_ns 3))) /\
  (calls (experiment2 cluttered_ns) = calls (experiment2 (short_ns 3)) /\
   value (experiment2 cluttered_ns) = value (experiment2 (short_ns 3)) /\
   outputs (experiment2 cluttered_ns) = outputs (experiment2 (short_ns 3))) /\
  outputs (experiment1 (final (experiment1 cluttered_ns))) = outputs (experiment1 cluttered_ns) /\
  outputs (experiment1 (final (experiment2 cluttered_ns))) = outputs (experiment1 cluttered_ns) /\
  outputs (experiment2 (final (experiment1 cluttered_ns))) = outputs (experiment2 cluttered_ns) /\
  outputs (experiment2 (final (experiment2 cluttered_ns))) = outputs (experiment2 cluttered_ns).
Proof.
  apply (deterministic_and_idempotent cluttered_ns (short_ns 3)).
  split.
  - vm_compute. reflexivity.
  - unfold cluttered_ns. cbn [singlesegment updl upd]. reflexivity.
Defined.

(** ** When the routine is not available *)

(** The import-or-compile cell ends normally whatever the host offers; it
    touches neither numbers nor lists nor the binding of [singlesegment]. *)
Lemma import_or_compile_quiet h ns :
  exists ns',
    import_or_compile h ns = mkRun ns' [] (inr tt) /\
    (forall x, num ns' x = num ns x) /\
    (forall y, lst ns' y = lst ns y) /\
    singlesegment ns' = singlesegment ns.
Proof.
  unfold import_or_compile.
  destruct (import_prebuilt h) as [e1|[]];
    [destruct (compile_then_import h) as [e2|[]]|];
    cbn; eexists; repeat split.
Qed.




Lemma experiment1_flows ns :
  lst (final (experiment1 ns)) q_result = flows (calls (experiment1 ns)).
Proof.
  destruct (num ns tsteps) as [n|f] eqn:Hn.
  - rewrite (experiment1_loop ns n Hn). cbn [final calls].
    rewrite loop_flows with (pre := no_pre) (mid := no_mid); auto with shape.
  - rewrite (experiment1_float ns f Hn). reflexivity.
Qed.

Lemma experiment2_flows ns :
  lst (final (experiment2 ns)) q_result = flows (calls (experiment2 ns)).
Proof.
  destruct (num ns tsteps) as [n|f] eqn:Hn.
  - rewrite (experiment2_loop ns n Hn). cbn [final calls].
    rewrite loop_flows with (pre := pulse_ns) (mid := note_qus); auto with shape.
  - rewrite (experiment2_float ns f Hn). reflexivity.
Qed.

Lemma experiment1_failed_call ns c e :
  In c (calls (experiment1 ns)) -> result c = inl e ->
  value (experiment1 ns) = inl e /\
  exists before, calls (experiment1 ns) = before ++ [c].
Proof.
  destruct (num ns tsteps) as [n|f] eqn:Hn.
  - rewrite (experiment1_loop ns n Hn). cbn [value calls].
    apply loop_failed_call with (pre := no_pre) (mid := no_mid); auto with shape.
  - rewrite (experiment1_float ns f Hn). intros [].
Qed.

Lemma experiment2_failed_call ns c e :
  In c (calls (experiment2 ns)) -> result c = inl e ->
  value (experiment2 ns) = inl e /\
  exists before, calls (experiment2 ns) = before ++ [c].
Proof.
  destruct (num ns tsteps) as [n|f] eqn:Hn.
  - rewrite (experiment2_loop ns n Hn). cbn [value calls].
    apply loop_failed_call with (pre := pulse_ns) (mid := note_qus); auto with shape.
  - rewrite (experiment2_float ns f Hn). intros [].
Qed.




(** ** Concrete runs *)

Lemma state_threading_witness :
  exists c c' t,
    nth_error (calls (experiment1 (short_ns 3))) 2 = Some c /\
    nth_error (calls (experiment1 (short_ns 3))) 1 = Some c' /\
    result c' = inr t /\ prev_state (args c) = t.
Proof.
  destruct (state_threading (short_ns 3)) as (_ & H & _).
  destruct (nth_error (calls (experiment1 (short_ns 3))) 2) as [c|] eqn:Hc.
  - destruct (H 1%nat c Hc) as (c' & t & H1 & H2 & H3).
    exists c, c', t. auto.
  - vm_compute in Hc. discriminate Hc.
Defined.

Lemma pulse_exact_scenario_witness :
  exists c,
    nth_error (calls (experiment2 demo_ns)) 7 = Some c /\
    ((6 <= 7 <= 9)%nat ->
       arg_qup (args c) = PyInt 1 /\ arg_quc (args c) = PyInt 1 /\
       nth_error (lst (final (experiment2 demo_ns)) qus) 7 = Some (PyInt 1)) /\
    ((7 < 6 \/ 9 < 7)%nat ->
       arg_qup (args c) = PyFloat 0.21 /\ arg_quc (args c) = PyFloat 0.21 /\
       nth_error (lst (final (experiment2 demo_ns)) qus) 7 = Some (PyFloat 0.21)).
Proof.
  apply (pulse_exact_scenario demo_ns mean_solver);
    [reflexivity | intros a; eexists; reflexivity | reflexivity | lia].
Defined.

Lemma zero_step_run_witness :
  (value (experiment1 (short_ns 0)) = inr tt /\
   calls (experiment1 (short_ns 0)) = [] /\
   lst (final (experiment1 (short_ns 0))) q_result = [] /\
   lst (final (experiment1 (short_ns 0))) t_result = []) /\
  (value (experiment2 (short_ns 0)) = inr tt /\
   calls (experiment2 (short_ns 0)) = [] /\
   lst (final (experiment2 (short_ns 0))) q_result = [] /\
   lst (final (experiment2 (short_ns 0))) t_result = [] /\
   lst (final (experiment2 (short_ns 0))) qus = []).
Proof.
  apply (zero_step_run (short_ns 0)). reflexivity.
Defined.


(** The first call of experiment 1 on the demonstration set-up. *)
Definition demo_first_call : Call :=
  mkCall (current_args (start1 demo_ns)) (mean_solver (current_args (start1 demo_ns))).

Lemma upstream_previous_equals_current_witness :
  In demo_first_call (calls (experiment1 (short_ns 2))) /\
  arg_qup (args demo_first_call) = arg_quc (args demo_first_call).
Proof.
  assert (Hn : nth_error (calls (experiment1 (short_ns 2))) 0
               = Some demo_first_call) by (vm_compute; reflexivity).
  pose proof (nth_error_In _ _ Hn) as H.
  split; [exact H|].
  apply (upstream_previous_equals_current (short_ns 2)). left. exact H.
Defined.

(** * Further properties of the cells *)

(** ** Degenerate step counts *)




(** X2. A [float] step count stops either cell with [TypeError] at the
    [range] call: no call is made, yet the result lists have already been
    emptied and the state names reset to the initial conditions, so the
    results of an earlier run are gone. *)
Theorem float_step_count (ns : Ns) (g : float) (r : Run unit) :
  num ns tsteps = PyFloat g ->
  r = experiment1 ns \/ r = experiment2 ns ->
  value r = inl (TypeError "'float' object cannot be interpreted as an integer") /\
  calls r = [] /\
  lst (final r) q_result = [] /\
  lst (final r) t_result = [] /\
  state_of (final r) = (PyFloat 0.21, PyFloat 0.070, PyFloat 0.010).
Proof.
  intros Hn [-> | ->].
  - rewrite (experiment1_float ns g Hn). repeat split.
  - rewrite (experiment2_float ns g Hn). repeat split.
Qed.

(** The demonstration set-up after a finished run, with the step count
    then rebound to [60.0]. *)
Definition float_steps_ns : Ns :=
  upd tsteps (PyFloat 60.0) (final (experiment1 (short_ns 3))).

Lemma float_step_count_witness :
  lst float_steps_ns q_result <> [] /\
  value (experiment1 float_steps_ns)
  = inl (TypeError "'float' object cannot be interpreted as an integer") /\
  calls (experiment1 float_steps_ns) = [] /\
  lst (final (experiment1 float_steps_ns)) q_result = [] /\
  lst (final (experiment1 float_steps_ns)) t_result = [] /\
  state_of (final (experiment1 float_steps_ns))
  = (PyFloat 0.21, PyFloat 0.070, PyFloat 0.010).
Proof.
  split.
  - vm_compute. discriminate.
  - apply (float_step_count float_steps_ns 60.0%float);
      [reflexivity | left; reflexivity].
Defined.

(** ** Lengths and contents of the result lists in any run *)

Lemma Forall2_nth_right {A B} (R : A -> B -> Prop) l l' :
  Forall2 R l l' ->
  forall j b, nth_error l' j = Some b ->
    exists a, nth_error l j = Some a /\ R a b.
Proof.
  induction 1 as [|a0 b0 l l' Hab _ IH]; intros j b Hj.
  - destruct j; discriminate Hj.
  - destruct j as [|j].
    + injection Hj as <-. now exists a0.
    + apply IH. exact Hj.
Qed.

Lemma nth_error_firstn_some {A} m (l : list A) j a :
  nth_error (firstn m l) j = Some a -> nth_error l j = Some a.
Proof.
  rewrite nth_error_firstn. destruct (j <? m)%nat; [auto | discriminate].
Qed.



(** What either experiment leaves in [t_result], against its calls and
    its [q_result]. *)
Lemma experiment_shape ns r :
  r = experiment1 ns \/ r = experiment2 ns ->
  exists l,
    Forall2 (fun i v => py_mul (PyInt i) (num ns dt) = inr v)
            (firstn (length (lst (final r) t_result)) l)
            (lst (final r) t_result) /\
    (forall j i, nth_error l j = Some i -> i = Z.of_nat j) /\
    (length (lst (final r) t_result) <= length (lst (final r) q_result))%nat /\
    (length (lst (final r) q_result) <= length (calls r))%nat /\
    (length (calls r) <= length (lst (final r) t_result) + 1)%nat /\
    (value r = inr tt ->
     length (lst (final r) t_result) = length l /\ length (calls r) = length l).
Proof.
  intros Hr.
  destruct (num ns tsteps) as [n|g] eqn:Hn.
  - exists (upto n).
    assert (Hupto : forall j i, nth_error (upto n) j = Some i -> i = Z.of_nat j).
    { intros j i Hj. now apply upto_nth in Hj. }
    destruct Hr as [-> | ->].
    + rewrite (experiment1_flows ns).
      rewrite (experiment1_loop ns n Hn). cbn [final calls value].
      destruct (loop_shape no_pre no_mid body1) with (l := upto n) (ns := start1 ns)
        as (ts & Hts & Hst & H1 & H2 & H3 & Hok & _); auto with shape.
      change (lst (start1 ns) t_result) with (@nil pyval) in Hts. cbn [app] in Hts.
      rewrite Hts.
      split; [exact Hst|]. split; [exact Hupto|]. split; [exact H1|].
      split; [exact H2|]. split; [exact H3|]. exact Hok.
    + rewrite (experiment2_flows ns).
      rewrite (experiment2_loop ns n Hn). cbn [final calls value].
      destruct (loop_shape pulse_ns note_qus body2) with (l := upto n) (ns := start2 ns)
        as (ts & Hts & Hst & H1 & H2 & H3 & Hok & _); auto with shape.
      change (lst (start2 ns) t_result) with (@nil pyval) in Hts. cbn [app] in Hts.
      rewrite Hts.
      split; [exact Hst|]. split; [exact Hupto|]. split; [exact H1|].
      split; [exact H2|]. split; [exact H3|]. exact Hok.
  - exists [].
    destruct Hr as [-> | ->];
      [rewrite (experiment1_float ns g Hn) | rewrite (experiment2_float ns g Hn)];
      cbn; repeat split; auto; try constructor;
      try (intros j i Hj; destruct j; discriminate Hj);
      intros Hv; discriminate Hv.
Qed.

(** In the pulse experiment [qus] grows in step with [t_result], and each
    entry is the pulse value of its index. *)
Lemma loop2_qus_shape l :
  forall ns,
    exists qs,
      lst (final (foreach l body2 ns)) qus = lst ns qus ++ qs /\
      length (lst (final (foreach l body2 ns)) t_result)
      = (length (lst ns t_result) + length qs)%nat /\
      Forall2 (fun i v =>
                 v = if (5 <? i) && (i <? 10) then PyInt 1 else PyFloat 0.21)
              (firstn (length qs) l) qs.
Proof.
  induction l as [|i l IH]; intros ns.
  - exists []. cbn. rewrite app_nil_r. repeat split; auto.
  - destruct (foreach2_unrolled i l ns) as [Hf | f e Hf Hc | f t e Hf Hc Hp | f t p Hf Hc Hp];
      cbn [final].
    + exists []. unfold entered. rewrite !pulse_lst. cbn.
      rewrite app_nil_r. repeat split; auto.
    + exists []. unfold entered. rewrite !pulse_lst. cbn.
      rewrite app_nil_r. repeat split; auto.
    + exists []. destruct t as [[q v] d]. unfold recorded, entered. cbn.
      rewrite !pulse_lst. cbn.
      rewrite app_nil_r. repeat split; auto.
    + destruct (IH (next pulse_ns note_qus i p t ns)) as (qs & Hq & Hlen & Hall).
      exists (arg_quc (current_args (entered pulse_ns i ns)) :: qs).
      rewrite Hq, Hlen, next2_qus, <- app_assoc.
      rewrite next_stamps with (pre := pulse_ns); auto with shape.
      rewrite length_app. cbn [length app firstn].
      repeat split; auto; [lia|].
      constructor; [|exact Hall].
      cbn [arg_quc current_args]. unfold entered.
      apply (proj2 (pulse_values i (upd k (PyInt i) ns))).
Qed.

Lemma experiment2_qus_shape ns :
  length (lst (final (experiment2 ns)) qus)
  = length (lst (final (experiment2 ns)) t_result) /\
  forall j v, nth_error (lst (final (experiment2 ns)) qus) j = Some v ->
    v = if (5 <? Z.of_nat j) && (Z.of_nat j <? 10) then PyInt 1 else PyFloat 0.21.
Proof.
  destruct (num ns tsteps) as [n|g] eqn:Hn.
  - rewrite (experiment2_loop ns n Hn). cbn [final].
    destruct (loop2_qus_shape (upto n) (start2 ns)) as (qs & Hq & Hlen & Hall).
    change (lst (start2 ns) qus) with (@nil pyval) in Hq.
    change (lst (start2 ns) t_result) with (@nil pyval) in Hlen.
    cbn [app length Nat.add] in Hq, Hlen. rewrite Hq, Hlen.
    split; [reflexivity|].
    intros j v Hj.
    destruct (Forall2_nth_right _ _ _ Hall j v Hj) as (i & Hi & ->).
    apply nth_error_firstn_some, upto_nth in Hi. destruct Hi as [-> _].
    reflexivity.
  - rewrite (experiment2_float ns g Hn). cbn. split; [reflexivity|].
    intros j v Hj. destruct j; discriminate Hj.
Qed.

(** X3. Lengths of the result lists.  In any run of either cell, aborted
    or not, [t_result] is never longer than [q_result], [q_result] never
    longer than the number of calls made, and the number of calls exceeds
    the length of [t_result] by at most one; in the pulse cell [qus] is as
    long as [t_result].  When the cell ends normally the lists and the
    number of calls all have the same length, so the plots that follow
    receive sequences of equal length. *)
Theorem result_lengths (ns : Ns) (r : Run unit) :
  r = experiment1 ns \/ r = experiment2 ns ->
  (length (lst (final r) t_result) <= length (lst (final r) q_result))%nat /\
  (length (lst (final r) q_result) <= length (calls r))%nat /\
  (length (calls r) <= length (lst (final r) t_result) + 1)%nat /\
  (r = experiment2 ns ->
   length (lst (final r) qus) = length (lst (final r) t_result)) /\
  (value r = inr tt ->
   length (lst (final r) q_result) = length (lst (final r) t_result) /\
   length (calls r) = length (lst (final r) t_result)).
Proof.
  intros Hr.
  destruct (experiment_shape ns r Hr) as (l & _ & _ & H1 & H2 & H3 & Hok).
  split; [exact H1|]. split; [exact H2|]. split; [exact H3|]. split.
  - intros ->. apply experiment2_qus_shape.
  - intros Hv. destruct (Hok Hv). lia.
Qed.

Lemma result_lengths_witness :
  (length (lst (final (experiment2 (short_ns 4))) t_result)
   <= length (lst (final (experiment2 (short_ns 4))) q_result))%nat /\
  (length (lst (final (experiment2 (short_ns 4))) q_result)
   <= length (calls (experiment2 (short_ns 4))))%nat /\
  (length (calls (experiment2 (short_ns 4)))
   <= length (lst (final (experiment2 (short_ns 4))) t_result) + 1)%nat /\
  (experiment2 (short_ns 4) = experiment2 (short_ns 4) ->
   length (lst (final (experiment2 (short_ns 4))) qus)
   = length (lst (final (experiment2 (short_ns 4))) t_result)) /\
  (value (experiment2 (short_ns 4)) = inr tt ->
   length (lst (final (experiment2 (short_ns 4))) q_result)
   = length (lst (final (experiment2 (short_ns 4))) t_result) /\
   length (calls (experiment2 (short_ns 4)))
   = length (lst (final (experiment2 (short_ns 4))) t_result)).
Proof.
  apply (result_lengths (short_ns 4)). right. reflexivity.
Defined.

(** X4. The time axis.  In any run of either cell, whatever the routine
    does, the [j]-th entry of [t_result] is the product [j * dt]; with an
    [int] time step [d] it is the [int] [j * d], so the axis starts at 0
    and advances by [d]. *)
Theorem time_axis (ns : Ns) (r : Run unit) (j : nat) (v : pyval) :
  r = experiment1 ns \/ r = experiment2 ns ->
  nth_error (lst (final r) t_result) j = Some v ->
  py_mul (PyInt (Z.of_nat j)) (num ns dt) = inr v /\
  (forall d, num ns dt = PyInt d -> v = PyInt (Z.of_nat j * d)).
Proof.
  intros Hr Hj.
  destruct (experiment_shape ns r Hr) as (l & Hst & Hl & _).
  destruct (Forall2_nth_right _ _ _ Hst j v Hj) as (i & Hi & Hmul).
  apply nth_error_firstn_some, Hl in Hi. subst i.
  split; [exact Hmul|].
  intros d Hd. rewrite Hd in Hmul. cbn in Hmul. congruence.
Qed.

Lemma time_axis_witness :
  nth_error (lst (final (experiment1 (short_ns 4))) t_result) 3 = Some (PyInt 1800) /\
  py_mul (PyInt (Z.of_nat 3)) (num (short_ns 4) dt) = inr (PyInt 1800) /\
  (forall d, num (short_ns 4) dt = PyInt d -> PyInt 1800 = PyInt (Z.of_nat 3 * d)).
Proof.
  assert (H : nth_error (lst (final (experiment1 (short_ns 4))) t_result) 3
              = Some (PyInt 1800)) by (vm_compute; reflexivity).
  split; [exact H|].
  apply (time_axis (short_ns 4) (experiment1 (short_ns 4)) 3 (PyInt 1800));
    [left; reflexivity | exact H].
Defined.

(** X5. The pulse at any step count.  Whatever the step count and
    whatever the routine does, every entry that the pulse cell records in
    [qus] is the pulse value of its index: [1] at indices 6 to 9 and [0.21]
    at every other index. *)
Theorem pulse_record (ns : Ns) (j : nat) (v : pyval) :
  nth_error (lst (final (experiment2 ns)) qus) j = Some v ->
  ((6 <= j <= 9)%nat -> v = PyInt 1) /\
  ((j < 6 \/ 9 < j)%nat -> v = PyFloat 0.21).
Proof.
  intros Hj. rewrite (proj2 (experiment2_qus_shape ns) j v Hj).
  split; intros Hrange.
  - assert (Hb : (5 <? Z.of_nat j) && (Z.of_nat j <? 10) = true).
    { apply andb_true_iff. split; apply Z.ltb_lt; lia. }
    now rewrite Hb.
  - assert (Hb : (5 <? Z.of_nat j) && (Z.of_nat j <? 10) = false).
    { apply andb_false_iff. destruct Hrange; [left|right]; apply Z.ltb_ge; lia. }
    now rewrite Hb.
Qed.

Lemma pulse_record_witness :
  nth_error (lst (final (experiment2 (short_ns 8))) qus) 6 = Some (PyInt 1) /\
  ((6 <= 6 <= 9)%nat -> PyInt 1 = PyInt 1) /\
  ((6 < 6 \/ 9 < 6)%nat -> PyInt 1 = PyFloat 0.21).
Proof.
  assert (H : nth_error (lst (final (experiment2 (short_ns 8))) qus) 6
              = Some (PyInt 1)) by (vm_compute; reflexivity).
  split; [exact H|].
  apply (pulse_record (short_ns 8) 6 (PyInt 1)). exact H.
Defined.

(** ** Where a run leaves the state *)

Lemma upto_last n : 0 < n -> upto n = upto (n - 1) ++ [n - 1].
Proof.
  intros Hn. unfold upto.
  replace (Z.to_nat n) with (S (Z.to_nat (n - 1))) by lia.
  rewrite seq_S, map_app. cbn [map Nat.add]. f_equal. f_equal. lia.
Qed.

Lemma experiment_final_state ns n r :
  num ns tsteps = PyInt n -> 0 < n ->
  r = experiment1 ns \/ r = experiment2 ns ->
  value r = inr tt ->
  exists before c t,
    calls r = before ++ [c] /\
    result c = inr t /\
    state_of (final r) = t /\
    (num (final r) qdc, num (final r) velc, num (final r) depthc) = t /\
    num (final r) k = PyInt (n - 1).
Proof.
  intros Hn Hpos Hr Hv.
  assert (Hne : upto n <> []).
  { destruct (upto_pos n Hpos) as [l Hl]. rewrite Hl. discriminate. }
  assert (Hlast : forall l0 ilast, upto n = l0 ++ [ilast] -> ilast = n - 1).
  { intros l0 ilast H. rewrite (upto_last n Hpos) in H.
    now apply app_inj_tail in H. }
  destruct Hr as [-> | ->].
  - rewrite (experiment1_loop ns n Hn) in Hv |- *. cbn [value final calls] in Hv |- *.
    destruct (loop_final_state_nonempty no_pre no_mid body1) with
      (l := upto n) (ns := start1 ns)
      as (before & c & t & l0 & ilast & H1 & H2 & H3 & H4 & H5 & H6);
      auto with shape.
    exists before, c, t. rewrite H6, (Hlast l0 ilast H5).
    split; [exact H1|]. split; [exact H2|]. split; [exact H3|].
    split; [exact H4 | reflexivity].
  - rewrite (experiment2_loop ns n Hn) in Hv |- *. cbn [value final calls] in Hv |- *.
    destruct (loop_final_state_nonempty pulse_ns note_qus body2) with
      (l := upto n) (ns := start2 ns)
      as (before & c & t & l0 & ilast & H1 & H2 & H3 & H4 & H5 & H6);
      auto with shape.
    exists before, c, t. rewrite H6, (Hlast l0 ilast H5).
    split; [exact H1|]. split; [exact H2|]. split; [exact H3|].
    split; [exact H4 | reflexivity].
Qed.

(** X6. Where a finished run leaves the state.  After either cell has
    ended normally with at least one step, [(qdp, velp, depthp)] and
    [(qdc, velc, depthc)] both hold the triple returned by the last call,
    and [k] holds [tsteps - 1]. *)
Theorem final_state_is_last_triple (ns : Ns) (n : Z) (r : Run unit) :
  num ns tsteps = PyInt n ->
  0 < n ->
  r = experiment1 ns \/ r = experiment2 ns ->
  value r = inr tt ->
  exists before c t,
    calls r = before ++ [c] /\
    result c = inr t /\
    state_of (final r) = t /\
    (num (final r) qdc, num (final r) velc, num (final r) depthc) = t /\
    num (final r) k = PyInt (n - 1).
Proof. exact (experiment_final_state ns n r). Qed.

Lemma final_state_is_last_triple_witness :
  exists before c t,
    calls (experiment1 (short_ns 3)) = before ++ [c] /\
    result c = inr t /\
    state_of (final (experiment1 (short_ns 3))) = t /\
    (num (final (experiment1 (short_ns 3))) qdc,
     num (final (experiment1 (short_ns 3))) velc,
     num (final (experiment1 (short_ns 3))) depthc) = t /\
    num (final (experiment1 (short_ns 3))) k = PyInt (3 - 1).
Proof.
  apply (final_state_is_last_triple (short_ns 3) 3);
    [reflexivity | lia | left; reflexivity | vm_compute; reflexivity].
Defined.

(** ** A call that raises *)



(** A routine that works twice and then gives up. *)
Definition tiring_solver : solver :=
  fun a =>
    match arg_qdp a with
    | PyFloat f =>
        if PrimFloat.ltb f 0.36
        then mean_solver a
        else inl (Raised "routing failed")
    | PyInt _ => inl (Raised "routing failed")
    end.

Definition tiring_ns : Ns :=
  final (bind_singlesegment tiring_solver (short_ns 5)).

Definition tiring_last_call : Call :=
  {| args := {| arg_dt := PyInt 600; arg_qup := PyFloat 0.41;
                arg_quc := PyFloat 0.41; arg_qdp := PyFloat 0.36;
                arg_qlat := PyInt 0; arg_dx := PyFloat 2000.0;
                arg_bw := PyFloat 112.0; arg_tw := PyFloat 448.0;
                arg_twcc := PyFloat 623.0; arg_n_manning := PyFloat 0.028;
                arg_n_manning_cc := PyFloat 0.031; arg_cs := PyFloat 1.40;
                arg_s0 := PyFloat 0.0018; arg_velp := PyFloat 0.070;
                arg_depthp := PyFloat 0.010 |};
     result := inl (Raised "routing failed") |}.


(** ** The pulse conditional *)

(** X8. The first [if] of the pulse has no effect.  At every index and
    from every namespace, the pulse assignments as written (an [if k <= 5]
    followed by a separate [if]/[else]) leave exactly the bindings that the
    [if]/[else] alone leaves: the [else] branch reassigns the baseline for
    every index the first test had already handled. *)
Theorem pulse_first_test_is_redundant (i : Z) (ns : Ns) :
  value (pulse i ns) = value (pulse_if_else i ns) /\
  calls (pulse i ns) = calls (pulse_if_else i ns) /\
  (forall x, num (final (pulse i ns)) x = num (final (pulse_if_else i ns)) x) /\
  (forall y, lst (final (pulse i ns)) y = lst (final (pulse_if_else i ns)) y) /\
  singlesegment (final (pulse i ns)) = singlesegment (final (pulse_if_else i ns)).
Proof.
  unfold pulse, pulse_if_else.
  destruct (i <=? 5); destruct ((5 <? i) && (i <? 10)); cbn;
    repeat split; intros x; destruct x; reflexivity.
Qed.

(** ** The boundary of the step-change experiment *)

Lemma experiment1_boundary ns j c :
  nth_error (calls (experiment1 ns)) j = Some c ->
  arg_qup (args c) = PyFloat 0.41 /\
  arg_quc (args c) = PyFloat 0.41 /\
  arg_qlat (args c) = PyInt 0.
Proof.
  destruct (num ns tsteps) as [n|f] eqn:Hn.
  - rewrite (experiment1_loop ns n Hn). cbn [calls]. intros Hj.
    destruct (loop_indexed no_pre no_mid body1) with
      (Inv := fun ns' => num ns' qup = PyFloat 0.41 /\
                         num ns' quc = PyFloat 0.41 /\
                         num ns' qlat = PyInt 0)
      (Q := fun (_ : Z) a => arg_qup a = PyFloat 0.41 /\
                             arg_quc a = PyFloat 0.41 /\
                             arg_qlat a = PyInt 0)
      (l := upto n) (ns := start1 ns) (j := j) (c := c) as (i & _ & HQ);
      auto with shape.
    intros i p [[q v] d] ns' Hinv. exact Hinv.
  - rewrite (experiment1_float ns f Hn). destruct j; discriminate.
Qed.

Lemma experiment2_lateral ns j c :
  nth_error (calls (experiment2 ns)) j = Some c ->
  arg_qlat (args c) = PyInt 0.
Proof.
  destruct (num ns tsteps) as [n|f] eqn:Hn.
  - rewrite (experiment2_loop ns n Hn). cbn [calls]. intros Hj.
    destruct (loop_indexed pulse_ns note_qus body2) with
      (Inv := fun ns' => num ns' qlat = PyInt 0)
      (Q := fun (_ : Z) a => arg_qlat a = PyInt 0)
      (l := upto n) (ns := start2 ns) (j := j) (c := c) as (i & _ & HQ);
      auto with shape.
    + intros i ns' Hinv. cbn [arg_qlat current_args].
      rewrite entered_config with (pre := pulse_ns); auto with shape.
    + intros i p t ns' Hinv.
      rewrite next_config with (pre := pulse_ns) (mid := note_qus);
        auto with shape.
  - rewrite (experiment2_float ns f Hn). destruct j; discriminate.
Qed.

(** X9. The boundary of the step-change experiment.  Every call of
    experiment 1 receives the upstream flows [qup = quc = 0.41] and the
    lateral inflow [0], whatever the routine returned at earlier steps;
    every call of the pulse experiment receives lateral inflow [0] as
    well.  With the initial downstream flow [0.21] of the first call, the
    boundary [0.41] is not the doubled initial flow [2 * 0.21 = 0.42]. *)
Theorem step_change_boundary (ns : Ns) (c : Call) :
  In c (calls (experiment1 ns)) \/ In c (calls (experiment2 ns)) ->
  (In c (calls (experiment1 ns)) ->
   arg_qup (args c) = PyFloat 0.41 /\ arg_quc (args c) = PyFloat 0.41) /\
  arg_qlat (args c) = PyInt 0 /\
  PrimFloat.mul 2 0.21 = 0.42%float /\
  PyFloat 0.41 <> PyFloat (PrimFloat.mul 2 0.21).
Proof.
  intros Hin. split; [|split; [|split]].
  - intros H1. apply In_nth_error in H1. destruct H1 as [j Hj].
    destruct (experiment1_boundary ns j c Hj) as (Hu & Hc & _). auto.
  - destruct Hin as [H|H]; apply In_nth_error in H; destruct H as [j Hj].
    + now destruct (experiment1_boundary ns j c Hj) as (_ & _ & Hl).
    + now apply experiment2_lateral with (ns := ns) (j := j).
  - vm_compute. reflexivity.
  - vm_compute. intros H. discriminate H.
Qed.

Lemma step_change_boundary_witness :
  In demo_first_call (calls (experiment1 (short_ns 2))) /\
  (In demo_first_call (calls (experiment1 (short_ns 2))) ->
   arg_qup (args demo_first_call) = PyFloat 0.41 /\
   arg_quc (args demo_first_call) = PyFloat 0.41) /\
  arg_qlat (args demo_first_call) = PyInt 0 /\
  PrimFloat.mul 2 0.21 = 0.42%float /\
  PyFloat 0.41 <> PyFloat (PrimFloat.mul 2 0.21).
Proof.
  assert (Hn : nth_error (calls (experiment1 (short_ns 2))) 0
               = Some demo_first_call) by (vm_compute; reflexivity).
  pose proof (nth_error_In _ _ Hn) as H.
  split; [exact H|].
  apply (step_change_boundary (short_ns 2)). left. exact H.
Defined.

(** ** Running all cells *)

Lemma bind_pure {A B} (m : M A) (f : A -> M B) (ns ns' : Ns) (a : A) :
  m ns = mkRun ns' [] (inr a) -> bind m f ns = f a ns'.
Proof.
  intros Hm. unfold bind. rewrite Hm. destruct (f a ns'); reflexivity.
Qed.

(** The namespace once the routine is imported and the set-up cells have
    run. *)
Definition ready_ns (h : Host) (f : solver) (ns : Ns) : Ns :=
  final (channel_parameters
    (final (model_domain
      (final (bind_singlesegment f (final (import_or_compile h ns))))))).

Lemma import_or_compile_run h ns :
  import_or_compile h ns = mkRun (final (import_or_compile h ns)) [] (inr tt).
Proof.
  destruct (import_or_compile_quiet h ns) as (ns' & -> & _). reflexivity.
Qed.

Lemma run_all_ready h ns f :
  import_singlesegment h = inr f ->
  run_all h ns = (experiment1 ;; experiment2) (ready_ns h f ns).
Proof.
  intros Hf. unfold run_all.
  rewrite (bind_pure _ _ _ _ _ (import_or_compile_run h ns)).
  unfold import_demo. rewrite Hf.
  rewrite (bind_pure _ _ _ (final (bind_singlesegment f (final (import_or_compile h ns)))) tt)
    by reflexivity.
  rewrite (bind_pure _ _ _ (final (model_domain
             (final (bind_singlesegment f (final (import_or_compile h ns)))))) tt)
    by reflexivity.
  rewrite (bind_pure _ _ _ (ready_ns h f ns) tt) by reflexivity.
  reflexivity.
Qed.






Lemma run_calls {A} ns c (v : exn + A) : calls (mkRun ns c v) = c.
Proof. reflexivity. Qed.

Lemma run_value {A} ns c (v : exn + A) : value (mkRun ns c v) = v.
Proof. reflexivity. Qed.

(** The two experiments in sequence, in terms of each one's run. *)
Lemma both_experiments ns :
  (experiment1 ;; experiment2) ns =
  match value (experiment1 ns) with
  | inl e => mkRun (final (experiment1 ns)) (calls (experiment1 ns)) (inl e)
  | inr _ =>
      mkRun (final (experiment2 (final (experiment1 ns))))
            (calls (experiment1 ns) ++ calls (experiment2 (final (experiment1 ns))))
            (value (experiment2 (final (experiment1 ns))))
  end.
Proof. apply bind_run. Qed.








(** X12. The first exception ends the whole run.  In a run of all cells,
    a call that raises is the last call made, in whichever experiment it
    occurs, and the run ends with its exception: the pulse experiment is
    never started after a failed step-change experiment. *)
Theorem run_all_stops_at_first_failure
  (h : Host) (ns : Ns) (f : solver) (c : Call) (e : exn) :
  import_singlesegment h = inr f ->
  In c (calls (run_all h ns)) ->
  result c = inl e ->
  value (run_all h ns) = inl e /\
  exists before, calls (run_all h ns) = before ++ [c].
Proof.
  intros Hf. rewrite (run_all_ready h ns f Hf), both_experiments.
  set (ns0 := ready_ns h f ns).
  destruct (value (experiment1 ns0)) as [e1|[]] eqn:Hv1;
    rewrite !run_calls, !run_value; intros Hin Hres.
  - destruct (experiment1_failed_call ns0 c e Hin Hres) as [Hv Hb].
    rewrite Hv1 in Hv. split; [exact Hv | exact Hb].
  - apply in_app_or in Hin. destruct Hin as [Hin|Hin].
    + destruct (experiment1_failed_call ns0 c e Hin Hres) as [Hv _].
      rewrite Hv1 in Hv. discriminate Hv.
    + destruct (experiment2_failed_call _ c e Hin Hres) as [Hv [before Hb]].
      split; [exact Hv|].
      exists (calls (experiment1 ns0) ++ before). rewrite Hb.
      now rewrite app_assoc.
Qed.

Definition tiring_host : Host :=
  {| import_prebuilt := inr tt;
     compile_then_import := inr tt;
     import_singlesegment := inr tiring_solver |}.

Lemma run_all_stops_at_first_failure_witness :
  nth_error (calls (run_all tiring_host empty_ns)) 2 = Some tiring_last_call /\
  value (run_all tiring_host empty_ns) = inl (Raised "routing failed") /\
  exists before, calls (run_all tiring_host empty_ns) = before ++ [tiring_last_call].
Proof.
  assert (H : nth_error (calls (run_all tiring_host empty_ns)) 2
              = Some tiring_last_call) by (vm_compute; reflexivity).
  split; [exact H|].
  apply (run_all_stops_at_first_failure tiring_host empty_ns tiring_solver
           tiring_last_call (Raised "routing failed"));
    [reflexivity | exact (nth_error_In _ _ H) | reflexivity].
Defined.

(** ** The recorded flows are the threaded flows *)

Lemma threaded_flows tr :
  forall s j c,
    threaded s tr -> nth_error tr (S j) = Some c ->
    nth_error (flows tr) j = Some (arg_qdp (args c)).
Proof.
  induction tr as [|c0 tr IH]; intros s j c Ht Hc; [discriminate Hc|].
  destruct Ht as [_ Ht]. cbn [nth_error] in Hc.
  destruct c0 as [a0 [e|[[q v] d]]]; cbn [result] in Ht.
  - subst tr. destruct j; discriminate Hc.
  - rewrite flows_returned. destruct j as [|j].
    + pose proof (threaded_head _ _ _ Ht Hc) as Hs.
      unfold prev_state in Hs. injection Hs as Hq _ _.
      cbn [nth_error]. now rewrite Hq.
    + cbn [nth_error]. now apply IH with (s := (q, v, d)).
Qed.

(** X13. The recorded series is the threaded series.  In any run of
    either cell, the flow stored at position [j] of [q_result] is exactly
    the previous-step flow [qdp] handed to the call of step [j + 1]. *)
Theorem recorded_flow_feeds_next_step
  (ns : Ns) (r : Run unit) (j : nat) (c : Call) :
  r = experiment1 ns \/ r = experiment2 ns ->
  nth_error (calls r) (S j) = Some c ->
  nth_error (lst (final r) q_result) j = Some (arg_qdp (args c)).
Proof.
  intros [-> | ->] Hc.
  - rewrite experiment1_flows.
    now apply threaded_flows with (s := (PyFloat 0.21, PyFloat 0.070, PyFloat 0.010));
      [apply experiment1_threaded|].
  - rewrite experiment2_flows.
    now apply threaded_flows with (s := (PyFloat 0.21, PyFloat 0.070, PyFloat 0.010));
      [apply experiment2_threaded|].
Qed.

Lemma recorded_flow_feeds_next_step_witness :
  nth_error (calls (experiment1 tiring_ns)) 2 = Some tiring_last_call /\
  nth_error (lst (final (experiment1 tiring_ns)) q_result) 1
  = Some (arg_qdp (args tiring_last_call)).
Proof.
  assert (H : nth_error (calls (experiment1 tiring_ns)) 2 = Some tiring_last_call)
    by (vm_compute; reflexivity).
  split; [exact H|].
  apply (recorded_flow_feeds_next_step tiring_ns (experiment1 tiring_ns) 1
           tiring_last_call); [left; reflexivity | exact H].
Defined.

(** ** The import-or-compile cell *)


(** ** Properties of the path set-up cells *)

(** X15. Inserting the source directory.  With [root] bound, the second
    cell ends normally; the directory it computes goes to index 1 of
    [sys.path] (index 0 when [sys.path] was empty), the first entry stays
    first, every later entry moves up by one, and nothing is removed.
    Running the cell again inserts the directory a second time. *)
Theorem source_dir_inserted (h : PathHost) (p : Paths) (r : string) :
  root p = Some r ->
  let d := os_path_join h r source_components in
  let p' := fst (add_source_dir h p) in
  let p'' := fst (add_source_dir h p') in
  snd (add_source_dir h p) = None /\
  fortran_source_dir p' = Some d /\
  root p' = Some r /\
  length (sys_path p') = S (length (sys_path p)) /\
  nth_error (sys_path p') 0
  = match sys_path p with [] => Some d | s :: _ => Some s end /\
  (sys_path p <> [] -> nth_error (sys_path p') 1 = Some d) /\
  (forall j, nth_error (sys_path p') (S (S j)) = nth_error (sys_path p) (S j)) /\
  (forall s, In s (sys_path p) -> In s (sys_path p')) /\
  (sys_path p <> [] ->
   nth_error (sys_path p'') 1 = Some d /\ nth_error (sys_path p'') 2 = Some d /\
   length (sys_path p'') = S (S (length (sys_path p)))).
Proof.
  intros Hr. unfold add_source_dir. rewrite Hr.
  cbn [fst snd root sys_path fortran_source_dir]. rewrite ?Hr.
  cbn [fst snd root sys_path fortran_source_dir].
  unfold py_insert.
  destruct (sys_path p) as [|s0 sp]; cbn.
  - do 5 (split; [reflexivity|]).
    split; [intros H; now elim H|].
    split; [intros j; destruct j; reflexivity|].
    split; [intros s []|].
    intros H; now elim H.
  - do 5 (split; [reflexivity|]).
    split; [reflexivity|].
    split; [reflexivity|].
    split; [intros s [<-|Hin]; [now left | now right; right]|].
    intros _. repeat split.
Qed.

Definition colab_host : PathHost :=
  {| import_colab := inr tt;
     git_clone := inr 128;
     parent_of_cwd := inr "/home/user";
     os_path_join := fun a l => fold_left (fun acc b => (acc ++ "/" ++ b)%string) l a |}.

Definition fresh_paths : Paths :=
  {| ENV_IS_CL := None; root := None; fortran_source_dir := None;
     sys_path := ["/work/notebooks"; "/usr/lib/python3"] |}.

Lemma source_dir_inserted_witness :
  let p := fst (locate_root colab_host fresh_paths) in
  let d := os_path_join colab_host "/content/t-route" source_components in
  let p' := fst (add_source_dir colab_host p) in
  let p'' := fst (add_source_dir colab_host p') in
  snd (add_source_dir colab_host p) = None /\
  fortran_source_dir p' = Some d /\
  root p' = Some "/content/t-route" /\
  length (sys_path p') = S (length (sys_path p)) /\
  nth_error (sys_path p') 0
  = match sys_path p with [] => Some d | s :: _ => Some s end /\
  (sys_path p <> [] -> nth_error (sys_path p') 1 = Some d) /\
  (forall j, nth_error (sys_path p') (S (S j)) = nth_error (sys_path p) (S j)) /\
  (forall s, In s (sys_path p) -> In s (sys_path p')) /\
  (sys_path p <> [] ->
   nth_error (sys_path p'') 1 = Some d /\ nth_error (sys_path p'') 2 = Some d /\
   length (sys_path p'') = S (S (length (sys_path p)))).
Proof.
  apply (source_dir_inserted colab_host (fst (locate_root colab_host fresh_paths))
           "/content/t-route").
  reflexivity.
Defined.

(** X16. Which root the path cells use.  When the two cells end normally
    the directory put on [sys.path] is the join of the chosen root with
    the four source components, and the second cell never fails for want
    of [root].  The root is ["/content/t-route"] exactly when
    [google.colab] imports and the clone subprocess returns, whatever its
    return code; whenever the import or the start of the clone raises, the
    root is the parent of the working directory.  [ENV_IS_CL] is set as
    soon as the import succeeds, so it can be [True] with a local root. *)
Theorem path_setup_root (h : PathHost) (p : Paths) :
  let p' := fst (path_setup h p) in
  (snd (path_setup h p) = None ->
   exists r,
     root p' = Some r /\
     fortran_source_dir p' = Some (os_path_join h r source_components) /\
     sys_path p' = py_insert 1 (os_path_join h r source_components) (sys_path p) /\
     ((exists u rc, import_colab h = inr u /\ git_clone h = inr rc) ->
      r = "/content/t-route"%string) /\
     (~ (exists u rc, import_colab h = inr u /\ git_clone h = inr rc) ->
      parent_of_cwd h = inr r)) /\
  (forall e, snd (path_setup h p) = Some e ->
     parent_of_cwd h = inl e /\ sys_path p' = sys_path p) /\
  ((exists u, import_colab h = inr u) -> ENV_IS_CL p' = Some true) /\
  ((exists e, import_colab h = inl e) -> ENV_IS_CL p' = ENV_IS_CL p).
Proof.
  unfold path_setup, locate_root, local_root, add_source_dir.
  destruct (import_colab h) as [e1|u].
  - destruct (parent_of_cwd h) as [e3|d]; cbn.
    + split; [intros H; discriminate H|].
      split; [intros e H; injection H as <-; now split|].
      split; [intros [u H]; discriminate H | reflexivity].
    + split.
      { intros _. exists d. repeat split.
        intros (u & rc & H & _). discriminate H. }
      split; [intros e H; discriminate H|].
      split; [intros [u H]; discriminate H | reflexivity].
  - destruct (git_clone h) as [e2|rc].
    + destruct (parent_of_cwd h) as [e3|d]; cbn.
      * split; [intros H; discriminate H|].
        split; [intros e H; injection H as <-; now split|].
        split; [reflexivity | intros [e H]; discriminate H].
      * split.
        { intros _. exists d. repeat split.
          intros (u' & rc & _ & H). discriminate H. }
        split; [intros e H; discriminate H|].
        split; [reflexivity | intros [e H]; discriminate H].
    + cbn. split.
      { intros _. exists "/content/t-route"%string. repeat split.
        intros H. elim H. now exists u, rc. }
      split; [intros e H; discriminate H|].
      split; [reflexivity | intros [e H]; discriminate H].
Qed.
